(** * Gnuastro: element-wise arithmetic on typed datasets

    A shallow embedding of [lib/data-arithmetic-other.c]: type change,
    logical negation, the floating point unary and binary functions, and
    the [where] operator, together with the parts of the C language and of
    the [gal_data_t] interface they rest on.

    Datasets live in a heap addressed by pointers, because the functions
    return either one of their arguments or a newly allocated dataset and
    free their inputs on request.  [error(EXIT_FAILURE, ...)] ends the
    process; the embedding records which call ended it and the heap it
    left. *)

From Stdlib Require Import ZArith.
From Stdlib Require Import Floats.SpecFloat.
From stdpp Require Import gmap list strings.

Open Scope Z_scope.

(** ** Type tags and operator codes named by the file

    The file compares the [int] fields [type] and [operator] with these
    constants; the header that gives them their values is not among the
    sources, and only their being distinct matters here. *)

Inductive gal_type :=
| GAL_DATA_TYPE_BIT
| GAL_DATA_TYPE_UCHAR
| GAL_DATA_TYPE_CHAR
| GAL_DATA_TYPE_LOGICAL
| GAL_DATA_TYPE_USHORT
| GAL_DATA_TYPE_SHORT
| GAL_DATA_TYPE_UINT
| GAL_DATA_TYPE_INT
| GAL_DATA_TYPE_ULONG
| GAL_DATA_TYPE_LONG
| GAL_DATA_TYPE_LONGLONG
| GAL_DATA_TYPE_FLOAT
| GAL_DATA_TYPE_DOUBLE.

#[global] Instance gal_type_eq_dec : EqDecision gal_type.
Proof. solve_decision. Defined.

Inductive gal_operator :=
| GAL_DATA_OPERATOR_TO_UCHAR
| GAL_DATA_OPERATOR_TO_CHAR
| GAL_DATA_OPERATOR_TO_USHORT
| GAL_DATA_OPERATOR_TO_SHORT
| GAL_DATA_OPERATOR_TO_UINT
| GAL_DATA_OPERATOR_TO_INT
| GAL_DATA_OPERATOR_TO_ULONG
| GAL_DATA_OPERATOR_TO_LONG
| GAL_DATA_OPERATOR_TO_LONGLONG
| GAL_DATA_OPERATOR_TO_FLOAT
| GAL_DATA_OPERATOR_TO_DOUBLE
| GAL_DATA_OPERATOR_SQRT
| GAL_DATA_OPERATOR_LOG
| GAL_DATA_OPERATOR_LOG10
| GAL_DATA_OPERATOR_POW.

#[global] Instance gal_operator_eq_dec : EqDecision gal_operator.
Proof. solve_decision. Defined.

(** Modelled from the spec: the values of the three masks of the
    [unsigned char flags] argument, whose header is not among the sources.
    The requests are independent (reuse an input as the output, free the
    inputs, accept a single number against an array), so the masks are
    three distinct bits. *)
Definition GAL_DATA_ARITH_INPLACE : N := 1.
Definition GAL_DATA_ARITH_FREE : N := 2.
Definition GAL_DATA_ARITH_NUMOK : N := 4.

(** [flags & MASK] used as a C truth value. *)
Definition flag_set (flags mask : N) : bool := negb (N.land flags mask =? 0)%N.

(** ** C scalar types and values

    The sizes are those of the LP64 data model ([long] is 64 bits wide) and
    plain [char] is signed, as on GNU/Linux on x86-64. *)

Inductive c_type :=
| c_unsigned_char
| c_char
| c_unsigned_short
| c_short
| c_unsigned_int
| c_int
| c_unsigned_long
| c_long
| c_LONGLONG
| c_unsigned_LONGLONG
| c_float
| c_double.

#[global] Instance c_type_eq_dec : EqDecision c_type.
Proof. solve_decision. Defined.

(** [sizeof], in bytes. *)
Definition sizeof (t : c_type) : nat :=
  match t with
  | c_unsigned_char | c_char => 1
  | c_unsigned_short | c_short => 2
  | c_unsigned_int | c_int | c_float => 4
  | c_unsigned_long | c_long | c_LONGLONG | c_unsigned_LONGLONG | c_double => 8
  end%nat.

Definition c_is_float (t : c_type) : bool :=
  match t with c_float | c_double => true | _ => false end.

Definition c_is_signed (t : c_type) : bool :=
  match t with
  | c_char | c_short | c_int | c_long | c_LONGLONG => true
  | _ => false
  end.

Definition c_bits (t : c_type) : Z := 8 * Z.of_nat (sizeof t).

(** A value held in one element of a buffer: an integer, a floating point
    number, or the indeterminate content of memory that was allocated and
    not yet written. *)
Inductive scalar :=
| Undef
| Int (z : Z)
| Flt (f : spec_float).

(** Precision and exponent bound of the two floating point formats. *)
Definition fprec (t : c_type) : Z := match t with c_float => 24 | _ => 53 end.
Definition femax (t : c_type) : Z := match t with c_float => 128 | _ => 1024 end.

(** Conversion of an integer to an integer type: reduction modulo [2^bits],
    read as two's complement for a signed type. *)
Definition wrap (signed : bool) (bits z : Z) : Z :=
  let m := z mod 2 ^ bits in
  if signed && (2 ^ (bits - 1) <=? m) then m - 2 ^ bits else m.

(** The integral part of a floating point number (truncation toward zero).
    C leaves the conversion of a NaN or an infinity undefined; it is 0
    here. *)
Definition trunc_float (f : spec_float) : Z :=
  match f with
  | S754_finite s m e =>
      let a := if 0 <=? e then Z.pos m * 2 ^ e else Z.pos m / 2 ^ (- e) in
      if s then - a else a
  | _ => 0
  end.

(** Rounding of a floating point number to a format (to nearest, ties to
    even). *)
Definition round_float (prec emax : Z) (f : spec_float) : spec_float :=
  match f with
  | S754_finite s m e => binary_round prec emax s m e
  | _ => f
  end.

(** C's conversion of a value to the type [to], as an assignment, an
    argument passing or an arithmetic conversion performs it. *)
Definition convert (to : c_type) (v : scalar) : scalar :=
  match v with
  | Undef => Undef
  | Int z =>
      if c_is_float to then Flt (binary_normalize (fprec to) (femax to) z 0 false)
      else Int (wrap (c_is_signed to) (c_bits to) z)
  | Flt f =>
      if c_is_float to then Flt (round_float (fprec to) (femax to) f)
      else Int (wrap (c_is_signed to) (c_bits to) (trunc_float f))
  end.

(** Integer promotion followed by the usual arithmetic conversions: the
    common type of the two operands of an arithmetic or conditional
    operator. *)
Definition promote (t : c_type) : c_type :=
  match t with
  | c_unsigned_char | c_char | c_unsigned_short | c_short => c_int
  | _ => t
  end.

Definition unsigned_of (t : c_type) : c_type :=
  match t with
  | c_int => c_unsigned_int
  | c_long => c_unsigned_long
  | c_LONGLONG => c_unsigned_LONGLONG
  | _ => t
  end.

(** Conversion rank of the promoted integer types. *)
Definition rank (t : c_type) : nat :=
  match t with
  | c_int | c_unsigned_int => 1
  | c_long | c_unsigned_long => 2
  | _ => 3
  end%nat.

Definition usual_arithmetic_conversion (a b : c_type) : c_type :=
  if decide (a = c_double ∨ b = c_double) then c_double
  else if decide (a = c_float ∨ b = c_float) then c_float
  else
    let a := promote a in
    let b := promote b in
    if decide (a = b) then a
    else if bool_decide (c_is_signed a = c_is_signed b) then
      (if (rank a <? rank b)%nat then b else a)
    else
      let s := if c_is_signed a then a else b in
      let u := if c_is_signed a then b else a in
      if (rank s <=? rank u)%nat then u
      else if (sizeof u <? sizeof s)%nat then s
      else unsigned_of s.

(** The truth value of a scalar used as a condition. *)
Definition is_zero (v : scalar) : bool :=
  match v with
  | Undef => false
  | Int z => z =? 0
  | Flt f => SFeqb f (S754_zero false)
  end.

(** [!x]: an [int], 1 when [x] compares equal to zero and 0 otherwise. *)
Definition c_not (v : scalar) : scalar :=
  match v with
  | Undef => Undef
  | _ => Int (if is_zero v then 1 else 0)
  end.

(** The C type behind each type tag, as the declarations at the head of
    [data_arithmetic_not] and the [switch]es of the file pair them.  The
    bit type has no C type. *)
Definition c_type_of (t : gal_type) : option c_type :=
  match t with
  | GAL_DATA_TYPE_BIT => None
  | GAL_DATA_TYPE_UCHAR => Some c_unsigned_char
  | GAL_DATA_TYPE_CHAR => Some c_char
  | GAL_DATA_TYPE_LOGICAL => Some c_char
  | GAL_DATA_TYPE_USHORT => Some c_unsigned_short
  | GAL_DATA_TYPE_SHORT => Some c_short
  | GAL_DATA_TYPE_UINT => Some c_unsigned_int
  | GAL_DATA_TYPE_INT => Some c_int
  | GAL_DATA_TYPE_ULONG => Some c_unsigned_long
  | GAL_DATA_TYPE_LONG => Some c_long
  | GAL_DATA_TYPE_LONGLONG => Some c_LONGLONG
  | GAL_DATA_TYPE_FLOAT => Some c_float
  | GAL_DATA_TYPE_DOUBLE => Some c_double
  end.

(** ** Datasets and the heap *)

(** The fields of [gal_data_t] the file reads.  [array] is the content of
    the buffer, element by element; [wcs] is an opaque handle. *)
Record gal_data_t := {
  array : list scalar;
  type : gal_type;
  ndim : nat;
  dsize : list nat;
  size : nat;
  wcs : option positive;
  minmapsize : nat
}.

Definition with_array (d : gal_data_t) (a : list scalar) : gal_data_t :=
  {| array := a; type := type d; ndim := ndim d; dsize := dsize d;
     size := size d; wcs := wcs d; minmapsize := minmapsize d |}.

(** A [gal_data_t *] is a location; the heap maps the live ones to their
    dataset. *)
Abbreviation loc := positive (only parsing).
Abbreviation heap := (gmap positive gal_data_t) (only parsing).

(** The calls of [error(EXIT_FAILURE, ...)] in the file, each with the
    values its message prints. *)
Inductive failure :=
| OperatorNotRecognized (function : string) (operator : gal_operator)
| BitTypeNotSupported
| TypeNotRecognized (place : string) (t : gal_type)
| NotFloatOperand (operator : gal_operator) (numstr : string) (t : gal_type)
| InputsDifferentSize
| ConditionNotUchar (t : gal_type)
| ConditionDifferentSize.

(** Modelled from the spec: its error kinds, "TypeMismatch (operation
    restricted to float kinds given a non-float operand), ShapeMismatch
    (broadcasting/shape-compatibility rule violated, including the where
    condition-shape ...), UnsupportedKind (packed-bit kind requested ...),
    InternalInvariant (an operator code not recognized by any dispatch)",
    and the kind of each exit of the file.  The file itself only prints a
    message and exits. *)
Inductive error_kind :=
| TypeMismatch
| ShapeMismatch
| UnsupportedKind
| InternalInvariant.

Definition kind_of (e : failure) : error_kind :=
  match e with
  | OperatorNotRecognized _ _ => InternalInvariant
  | BitTypeNotSupported => UnsupportedKind
  | TypeNotRecognized _ _ => InternalInvariant
  | NotFloatOperand _ _ _ => TypeMismatch
  | InputsDifferentSize => ShapeMismatch
  | ConditionNotUchar _ => TypeMismatch
  | ConditionDifferentSize => ShapeMismatch
  end.

(** How a computation ends: it returns a value, the process exits through
    [error], it touches memory outside a live buffer (undefined in C), or
    the loop budget of the embedding runs out. *)
Inductive outcome (A : Type) :=
| Done (a : A) (h : heap)
| Exit (e : failure) (h : heap)
| Fault
| Fuel.

Arguments Done {A} a h.
Arguments Exit {A} e h.
Arguments Fault {A}.
Arguments Fuel {A}.

Definition exec (A : Type) : Type := heap → outcome A.

Definition ret {A} (a : A) : exec A := fun h => Done a h.

Definition bind {A B} (c : exec A) (k : A → exec B) : exec B :=
  fun h =>
    match c h with
    | Done a h' => k a h'
    | Exit e h' => Exit e h'
    | Fault => Fault
    | Fuel => Fuel
    end.

Notation "'let*' x ':=' c 'in' k" := (bind c (fun x => k))
  (at level 10, x name, c at level 100, k at level 200).

Notation "c ';;;' k" := (bind c (fun _ => k))
  (at level 100, k at level 200, right associativity).

(** [error(EXIT_FAILURE, 0, ...)]. *)
Definition error {A} (e : failure) : exec A := fun h => Exit e h.

(** [p->field]: the dataset a pointer leads to. *)
Definition deref (p : loc) : exec gal_data_t :=
  fun h => match h !! p with Some d => Done d h | None => Fault end.

(** [a[i]] read through a pointer into the buffer of [p]. *)
Definition load (p : loc) (i : nat) : exec scalar :=
  fun h =>
    match h !! p with
    | Some d =>
        match array d !! i with
        | Some v => Done v h
        | None => Fault
        end
    | None => Fault
    end.

(** [a[i] = v]. *)
Definition store (p : loc) (i : nat) (v : scalar) : exec unit :=
  fun h =>
    match h !! p with
    | Some d =>
        if (i <? length (array d))%nat
        then Done tt (<[p := with_array d (<[i := v]> (array d))]> h)
        else Fault
    | None => Fault
    end.

(** [do body while (test)], for the loops of the file: all of them advance
    their pointers by one element per turn, so the state of the loop is the
    number [i] of increments done; [again (S i)] is the test, evaluated after
    the increment.  [fuel] bounds the number of further turns. *)
Fixpoint do_while (fuel : nat) (body : nat → exec unit) (again : nat → bool)
    (i : nat) : exec unit :=
  fun h =>
    match body i h with
    | Done _ h' =>
        if again (S i) then
          match fuel with
          | O => Fuel
          | S fuel' => do_while fuel' body again (S i) h'
          end
        else Done tt h'
    | Exit e h' => Exit e h'
    | Fault => Fault
    | Fuel => Fuel
    end.

(** ** The [gal_data_t] interface used by the file *)

Definition product (l : list nat) : nat := foldr Nat.mul 1%nat l.

(** Modelled from the spec: [gal_data_alloc] is not among the sources.
    "allocate(kind, shape, coord_metadata, residency_threshold) ->
    ArrayValue, zero- or uninitialized-filled buffer of product(shape)
    elements of kind": a new dataset at a location that was not live, with
    the given type, the first [ndim] lengths of [dsize], their product as
    size, and a buffer of that many elements, zero when [clear] is set and
    indeterminate otherwise.  (The first argument of the C function, an
    existing array to adopt, is [NULL] in every call of the file.) *)
Definition gal_data_alloc (t : gal_type) (nd : nat) (ds : list nat)
    (w : option positive) (clear : bool) (mms : nat) : exec loc :=
  fun h =>
    let p := fresh (dom h) in
    let shape := take nd ds in
    let n := product shape in
    Done p (<[p := {| array := replicate n (if clear then Int 0 else Undef);
                      type := t; ndim := nd; dsize := shape; size := n;
                      wcs := w; minmapsize := mms |}]> h).

(** Modelled from the spec: [gal_data_free] is not among the sources.  The
    dataset is released: its location is no longer live.  Freeing a pointer
    that is not live is undefined. *)
Definition gal_data_free (p : loc) : exec unit :=
  fun h => match h !! p with Some _ => Done tt (delete p h) | None => Fault end.

(** Modelled from the spec: [gal_data_dsize_is_different] is not among the
    sources.  "Shape compatibility (exact dimension match)": the two
    datasets differ when their numbers of dimensions or any of their
    lengths differ. *)
Definition gal_data_dsize_is_different (a b : gal_data_t) : bool :=
  negb (bool_decide (ndim a = ndim b ∧ dsize a = dsize b)).

(** Modelled from the spec: [gal_data_out_type] is not among the sources.
    "the wider of left.kind/right.kind (float64 dominates float32)". *)
Definition gal_data_out_type (a b : gal_data_t) : gal_type :=
  if decide (type a = GAL_DATA_TYPE_DOUBLE ∨ type b = GAL_DATA_TYPE_DOUBLE)
  then GAL_DATA_TYPE_DOUBLE
  else type a.

(** Modelled from the spec: [gal_data_copy_to_new_type] is not among the
    sources.  "ArrayValue of target_kind and input.shape.  Each element is
    converted using target_kind's standard numeric conversion semantics":
    a new dataset of the new type with the shape of the input, each element
    the C conversion of the input's. *)
Definition gal_data_copy_to_new_type (p : loc) (t : gal_type) : exec loc :=
  let* d := deref p in
  match c_type_of t with
  | None => error (TypeNotRecognized "gal_data_copy_to_new_type" t)
  | Some ct =>
      let* o := gal_data_alloc t (ndim d) (dsize d) (wcs d) false (minmapsize d) in
      fun h =>
        match h !! o with
        | Some od => Done o (<[o := with_array od (convert ct <$> array d)]> h)
        | None => Fault
        end
  end.

(** ** The functions of [data-arithmetic-other.c] *)

(** The C mathematical library, which the file calls through [sqrt], [log],
    [log10] and [pow]; all four work on [double]. *)
Record libm := {
  c_sqrt : spec_float → spec_float;
  c_log : spec_float → spec_float;
  c_log10 : spec_float → spec_float;
  c_pow : spec_float → spec_float → spec_float
}.

(** A call [OP(x)] or [OP(x, y)] of a [double] function: the arguments are
    converted to [double]. *)
Definition call1 (OP : spec_float → spec_float) (x : scalar) : scalar :=
  match convert c_double x with
  | Flt a => Flt (OP a)
  | _ => Undef
  end.

Definition call2 (OP : spec_float → spec_float → spec_float) (x y : scalar) : scalar :=
  match convert c_double x, convert c_double y with
  | Flt a, Flt b => Flt (OP a b)
  | _, _ => Undef
  end.

(** *** Change of type *)

Definition data_arithmetic_change_type (data : loc) (operator : gal_operator)
    (flags : N) : exec loc :=
  let* type :=
    match operator with
    | GAL_DATA_OPERATOR_TO_UCHAR => ret GAL_DATA_TYPE_UCHAR
    | GAL_DATA_OPERATOR_TO_CHAR => ret GAL_DATA_TYPE_UCHAR
    | GAL_DATA_OPERATOR_TO_USHORT => ret GAL_DATA_TYPE_USHORT
    | GAL_DATA_OPERATOR_TO_SHORT => ret GAL_DATA_TYPE_SHORT
    | GAL_DATA_OPERATOR_TO_UINT => ret GAL_DATA_TYPE_UINT
    | GAL_DATA_OPERATOR_TO_INT => ret GAL_DATA_TYPE_INT
    | GAL_DATA_OPERATOR_TO_ULONG => ret GAL_DATA_TYPE_ULONG
    | GAL_DATA_OPERATOR_TO_LONG => ret GAL_DATA_TYPE_LONG
    | GAL_DATA_OPERATOR_TO_LONGLONG => ret GAL_DATA_TYPE_LONGLONG
    | GAL_DATA_OPERATOR_TO_FLOAT => ret GAL_DATA_TYPE_FLOAT
    | GAL_DATA_OPERATOR_TO_DOUBLE => ret GAL_DATA_TYPE_DOUBLE
    | _ => error (OperatorNotRecognized "data_arithmetic_change_type" operator)
    end in
  let* out := gal_data_copy_to_new_type data type in
  (if flag_set flags GAL_DATA_ARITH_FREE then gal_data_free data else ret tt) ;;;
  ret out.

(** *** Logical negation *)

(** [do *o++ = !*IN; while(++IN<IN_FINISH);] with [IN] a pointer to elements
    of type [IN_type] into the buffer of [data] and [o] an [unsigned char]
    pointer into the buffer of [out].  [IN_FINISH] was computed as
    [data->array + data->size] on the [void *] field [array], which GNU C
    counts in bytes: it stands [data->size] bytes after the start of the
    buffer, while [IN] stands [sizeof(IN_type)] bytes further at each
    increment. *)
Definition TYPE_CASE_FOR_NOT (IN_type : c_type) (data out : loc)
    (IN_FINISH : nat) : exec unit :=
  do_while IN_FINISH
    (fun i => let* x := load data i in
              store out i (convert c_unsigned_char (c_not x)))
    (fun i => (i * sizeof IN_type <? IN_FINISH)%nat)
    0%nat.

Definition data_arithmetic_not (data : loc) (flags : N) : exec loc :=
  let* d := deref data in
  let finish := size d in
  let* out := gal_data_alloc GAL_DATA_TYPE_UCHAR (ndim d) (dsize d) (wcs d)
                false (minmapsize d) in
  match type d with
  | GAL_DATA_TYPE_UCHAR => TYPE_CASE_FOR_NOT c_unsigned_char data out finish
  | GAL_DATA_TYPE_CHAR => TYPE_CASE_FOR_NOT c_char data out finish
  | GAL_DATA_TYPE_LOGICAL => TYPE_CASE_FOR_NOT c_char data out finish
  | GAL_DATA_TYPE_USHORT => TYPE_CASE_FOR_NOT c_unsigned_short data out finish
  | GAL_DATA_TYPE_SHORT => TYPE_CASE_FOR_NOT c_short data out finish
  | GAL_DATA_TYPE_UINT => TYPE_CASE_FOR_NOT c_unsigned_int data out finish
  | GAL_DATA_TYPE_INT => TYPE_CASE_FOR_NOT c_int data out finish
  | GAL_DATA_TYPE_ULONG => TYPE_CASE_FOR_NOT c_unsigned_long data out finish
  | GAL_DATA_TYPE_LONG => TYPE_CASE_FOR_NOT c_long data out finish
  | GAL_DATA_TYPE_LONGLONG => TYPE_CASE_FOR_NOT c_LONGLONG data out finish
  | GAL_DATA_TYPE_FLOAT => TYPE_CASE_FOR_NOT c_float data out finish
  | GAL_DATA_TYPE_DOUBLE => TYPE_CASE_FOR_NOT c_double data out finish
  | GAL_DATA_TYPE_BIT => error BitTypeNotSupported
  end ;;;
  (if flag_set flags GAL_DATA_ARITH_FREE then gal_data_free data else ret tt) ;;;
  ret out.

(** *** Checking functions *)

Definition check_float_input (inp : loc) (operator : gal_operator)
    (numstr : string) : exec unit :=
  let* d := deref inp in
  match type d with
  | GAL_DATA_TYPE_FLOAT | GAL_DATA_TYPE_DOUBLE => ret tt
  | t => error (NotFloatOperand operator numstr t)
  end.

(** *** Unary functions *)

(** [IT *ia=in->array, *oa=o->array, *of=oa + o->size;
     do *oa++ = OP( *ia++ ); while(oa<of);] *)
Definition UNIFUNC_RUN_FUNCTION (IT : c_type) (OP : spec_float → spec_float)
    (inp o : loc) : exec unit :=
  let* od := deref o in
  do_while (size od)
    (fun i => let* x := load inp i in store o i (convert IT (call1 OP x)))
    (fun i => (i <? size od)%nat)
    0%nat.

Definition UNIFUNC_F_OPERATOR_DONE (OP : spec_float → spec_float)
    (inp o : loc) : exec unit :=
  let* d := deref inp in
  match type d with
  | GAL_DATA_TYPE_FLOAT => UNIFUNC_RUN_FUNCTION c_float OP inp o
  | GAL_DATA_TYPE_DOUBLE => UNIFUNC_RUN_FUNCTION c_double OP inp o
  | t => error (TypeNotRecognized "UNIFUNC_F_OPERATOR_DONE" t)
  end.

Definition data_arithmetic_unary_function_f (M : libm) (operator : gal_operator)
    (flags : N) (inp : loc) : exec loc :=
  check_float_input inp operator "first" ;;;
  let* o :=
    if flag_set flags GAL_DATA_ARITH_INPLACE then ret inp
    else
      let* d := deref inp in
      gal_data_alloc (type d) (ndim d) (dsize d) (wcs d) false (minmapsize d) in
  match operator with
  | GAL_DATA_OPERATOR_SQRT => UNIFUNC_F_OPERATOR_DONE (c_sqrt M) inp o
  | GAL_DATA_OPERATOR_LOG => UNIFUNC_F_OPERATOR_DONE (c_log M) inp o
  | GAL_DATA_OPERATOR_LOG10 => UNIFUNC_F_OPERATOR_DONE (c_log10 M) inp o
  | _ => error (OperatorNotRecognized "data_arithmetic_binary_function" operator)
  end ;;;
  (if flag_set flags GAL_DATA_ARITH_FREE && negb (bool_decide (o = inp))
   then gal_data_free inp else ret tt) ;;;
  ret o.

(** *** Binary functions *)

(** [LT *la=l->array; RT *ra=r->array; OT *oa=o->array, *of=oa + o->size;]
    followed by one of three [do ... while(++oa<of);] loops, chosen by the
    sizes of the operands. *)
Definition BINFUNC_RUN_FUNCTION (OT RT LT : c_type)
    (OP : spec_float → spec_float → spec_float) (l r o : loc) : exec unit :=
  let* ld := deref l in
  let* rd := deref r in
  let* od := deref o in
  let again := fun i => (i <? size od)%nat in
  if (size ld =? size rd)%nat then
    do_while (size od)
      (fun i => let* a := load l i in
                let* b := load r i in
                store o i (convert OT (call2 OP a b)))
      again 0%nat
  else if (size ld =? 1)%nat then
    do_while (size od)
      (fun i => let* a := load l 0%nat in
                let* b := load r i in
                store o i (convert OT (call2 OP a b)))
      again 0%nat
  else
    do_while (size od)
      (fun i => let* a := load l i in
                let* b := load r 0%nat in
                store o i (convert OT (call2 OP a b)))
      again 0%nat.

Definition BINFUNC_F_OPERATOR_LEFT_RIGHT_SET (RT LT : c_type)
    (OP : spec_float → spec_float → spec_float) (l r o : loc) : exec unit :=
  let* od := deref o in
  match type od with
  | GAL_DATA_TYPE_FLOAT => BINFUNC_RUN_FUNCTION c_float RT LT OP l r o
  | GAL_DATA_TYPE_DOUBLE => BINFUNC_RUN_FUNCTION c_double RT LT OP l r o
  | t => error (TypeNotRecognized "BINFUNC_F_OPERATOR_LEFT_RIGHT_SET" t)
  end.

Definition BINFUNC_F_OPERATOR_LEFT_SET (LT : c_type)
    (OP : spec_float → spec_float → spec_float) (l r o : loc) : exec unit :=
  let* rd := deref r in
  match type rd with
  | GAL_DATA_TYPE_FLOAT => BINFUNC_F_OPERATOR_LEFT_RIGHT_SET c_float LT OP l r o
  | GAL_DATA_TYPE_DOUBLE => BINFUNC_F_OPERATOR_LEFT_RIGHT_SET c_double LT OP l r o
  | t => error (TypeNotRecognized "BINFUNC_F_OPERATOR_LEFT_SET" t)
  end.

Definition BINFUNC_F_OPERATOR_SET
    (OP : spec_float → spec_float → spec_float) (l r o : loc) : exec unit :=
  let* ld := deref l in
  match type ld with
  | GAL_DATA_TYPE_FLOAT => BINFUNC_F_OPERATOR_LEFT_SET c_float OP l r o
  | GAL_DATA_TYPE_DOUBLE => BINFUNC_F_OPERATOR_LEFT_SET c_double OP l r o
  | t => error (TypeNotRecognized "BINFUNC_F_OPERATOR_SET" t)
  end.

(** The choice of an input as the output, [o = l], [o = r] or [o] left
    [NULL] (here [None]). *)
Definition inplace_output (flags : N) (final_otype : gal_type) (out_size : nat)
    (l r : loc) (ld rd : gal_data_t) : option loc :=
  if flag_set flags GAL_DATA_ARITH_INPLACE then
    if bool_decide (type ld = final_otype) && (out_size =? size ld)%nat then Some l
    else if bool_decide (type rd = final_otype) && (out_size =? size rd)%nat then Some r
    else None
  else None.

Definition data_arithmetic_binary_function_f (M : libm) (operator : gal_operator)
    (flags : N) (l r : loc) : exec loc :=
  let* ld := deref l in
  let* rd := deref r in
  (if negb (flag_set flags GAL_DATA_ARITH_NUMOK
            && ((size ld =? 1)%nat || (size rd =? 1)%nat))
      && gal_data_dsize_is_different ld rd
   then error InputsDifferentSize else ret tt) ;;;
  check_float_input l operator "first" ;;;
  check_float_input r operator "second" ;;;
  let final_otype := gal_data_out_type ld rd in
  let minmapsize' :=
    if (minmapsize ld <? minmapsize rd)%nat then minmapsize ld else minmapsize rd in
  let out_size := if (size rd <? size ld)%nat then size ld else size rd in
  let* o :=
    match inplace_output flags final_otype out_size l r ld rd with
    | Some o => ret o
    | None =>
        gal_data_alloc final_otype
          (if (1 <? size ld)%nat then ndim ld else ndim rd)
          (if (1 <? size ld)%nat then dsize ld else dsize rd)
          (if (1 <? size ld)%nat then wcs ld else wcs rd)
          false minmapsize'
    end in
  match operator with
  | GAL_DATA_OPERATOR_POW => BINFUNC_F_OPERATOR_SET (c_pow M) l r o
  | _ => error (OperatorNotRecognized "data_arithmetic_binary_function" operator)
  end ;;;
  (if flag_set flags GAL_DATA_ARITH_FREE then
     if bool_decide (o = l) then gal_data_free r
     else if bool_decide (o = r) then gal_data_free l
     else (gal_data_free l ;;; gal_data_free r)
   else ret tt) ;;;
  ret o.

(** *** Where *)

(** [ITT *it=iftrue->array; OT *o=out->array, *of=out->array+out->size;]
    followed by one of two [do ... while(++o<of);] loops.  [c] is the
    [unsigned char] pointer into the buffer of [cond].  [of] is computed on
    the [void *] field [array], in bytes: it stands [out->size] bytes after
    the start of the buffer, while [o] stands [sizeof(OT)] bytes further at
    each increment.  The conditional operator evaluates only the operand it
    chooses and converts it to the common type of [ITT] and [OT]; the
    assignment converts that to [OT]. *)
Definition DO_WHERE_OPERATION (ITT OT : c_type) (out cond iftrue : loc) : exec unit :=
  let* od := deref out in
  let* id := deref iftrue in
  let again := fun i => (i * sizeof OT <? size od)%nat in
  let common := usual_arithmetic_conversion ITT OT in
  if (size id =? 1)%nat then
    do_while (size od)
      (fun i => let* c := load cond i in
                let* v := if is_zero c then load out i else load iftrue 0%nat in
                store out i (convert OT (convert common v)))
      again 0%nat
  else
    do_while (size od)
      (fun i => let* c := load cond i in
                let* v := if is_zero c then load out i else load iftrue i in
                store out i (convert OT (convert common v)))
      again 0%nat.

Definition WHERE_OUT_SET (OT : c_type) (out cond iftrue : loc) : exec unit :=
  let* id := deref iftrue in
  match type id with
  | GAL_DATA_TYPE_UCHAR => DO_WHERE_OPERATION c_unsigned_char OT out cond iftrue
  | GAL_DATA_TYPE_CHAR => DO_WHERE_OPERATION c_char OT out cond iftrue
  | GAL_DATA_TYPE_USHORT => DO_WHERE_OPERATION c_unsigned_short OT out cond iftrue
  | GAL_DATA_TYPE_SHORT => DO_WHERE_OPERATION c_short OT out cond iftrue
  | GAL_DATA_TYPE_UINT => DO_WHERE_OPERATION c_unsigned_int OT out cond iftrue
  | GAL_DATA_TYPE_INT => DO_WHERE_OPERATION c_int OT out cond iftrue
  | GAL_DATA_TYPE_ULONG => DO_WHERE_OPERATION c_unsigned_long OT out cond iftrue
  | GAL_DATA_TYPE_LONG => DO_WHERE_OPERATION c_long OT out cond iftrue
  | GAL_DATA_TYPE_LONGLONG => DO_WHERE_OPERATION c_LONGLONG OT out cond iftrue
  | GAL_DATA_TYPE_FLOAT => DO_WHERE_OPERATION c_float OT out cond iftrue
  | GAL_DATA_TYPE_DOUBLE => DO_WHERE_OPERATION c_double OT out cond iftrue
  | t => error (TypeNotRecognized "WHERE_OUT_SET" t)
  end.

(** The [operator] argument is not read. *)
Definition data_arithmetic_where (operator : gal_operator) (flags : N)
    (out cond iftrue : loc) : exec unit :=
  let* cd := deref cond in
  (if negb (bool_decide (type cd = GAL_DATA_TYPE_UCHAR))
   then error (ConditionNotUchar (type cd)) else ret tt) ;;;
  let* od := deref out in
  (if gal_data_dsize_is_different od cd
   then error ConditionDifferentSize else ret tt) ;;;
  match type od with
  | GAL_DATA_TYPE_UCHAR => WHERE_OUT_SET c_unsigned_char out cond iftrue
  | GAL_DATA_TYPE_CHAR => WHERE_OUT_SET c_char out cond iftrue
  | GAL_DATA_TYPE_USHORT => WHERE_OUT_SET c_unsigned_short out cond iftrue
  | GAL_DATA_TYPE_SHORT => WHERE_OUT_SET c_short out cond iftrue
  | GAL_DATA_TYPE_UINT => WHERE_OUT_SET c_unsigned_int out cond iftrue
  | GAL_DATA_TYPE_INT => WHERE_OUT_SET c_int out cond iftrue
  | GAL_DATA_TYPE_ULONG => WHERE_OUT_SET c_unsigned_long out cond iftrue
  | GAL_DATA_TYPE_LONG => WHERE_OUT_SET c_long out cond iftrue
  | GAL_DATA_TYPE_LONGLONG => WHERE_OUT_SET c_LONGLONG out cond iftrue
  | GAL_DATA_TYPE_FLOAT => WHERE_OUT_SET c_float out cond iftrue
  | GAL_DATA_TYPE_DOUBLE => WHERE_OUT_SET c_double out cond iftrue
  | t => error (TypeNotRecognized "data_arithmetic_where" t)
  end ;;;
  (if flag_set flags GAL_DATA_ARITH_FREE
   then (gal_data_free cond ;;; gal_data_free iftrue) else ret tt).

(** ** Well-formed datasets *)

(** The invariants of a dataset: the buffer holds [size] elements, [size]
    is the product of the [ndim] lengths, and there is at least one element
    (every loop of the file is a [do ... while], which reads and writes the
    first element before it tests). *)
Definition wf_data (d : gal_data_t) : bool :=
  (length (array d) =? size d)%nat
  && (length (dsize d) =? ndim d)%nat
  && (product (dsize d) =? size d)%nat
  && (0 <? size d)%nat.

Definition is_float_type (t : gal_type) : bool :=
  match t with
  | GAL_DATA_TYPE_FLOAT | GAL_DATA_TYPE_DOUBLE => true
  | _ => false
  end.

(** ** Sample data for the examples *)

(** A dataset of the given type and shape over the given buffer, and the
    heap that holds the datasets of a list at the locations 1, 2, ... *)
Definition dataset (t : gal_type) (shape : list nat) (a : list scalar) : gal_data_t :=
  {| array := a; type := t; ndim := length shape; dsize := shape;
     size := product shape; wcs := None; minmapsize := 0%nat |}.

Definition heap_of (l : list gal_data_t) : heap :=
  list_to_map (zip (Pos.of_succ_nat <$> seq 0 (length l)) l).

(** The dataset a computation returns a pointer to, in the heap it leaves. *)
Definition returned (r : outcome loc) : option gal_data_t :=
  match r with Done o h => h !! o | _ => None end.

(** The heap a computation leaves when it returns or exits. *)
Definition heap_after {A} (r : outcome A) : option heap :=
  match r with Done _ h => Some h | Exit _ h => Some h | _ => None end.

(** ** Vocabulary of the statements *)

(** The buffer of an output whose first [k] elements have been written. *)
Definition filled (a : list scalar) (G : nat → scalar) (k : nat) : list scalar :=
  (G <$> seq 0 k) ++ drop k a.

(** The number of turns of a [do ... while(++p<end)] whose pointer starts at
    the head of a buffer and advances [step] bytes per turn, and whose end
    pointer stands [finish] bytes after the head: the loop stops at the
    first turn after which [step * turns] is not below [finish]. *)
Definition turns (step finish : nat) : nat := S ((finish - 1) / step).

(** The type each operator of the type change is named after. *)
Definition requested_type (operator : gal_operator) : option gal_type :=
  match operator with
  | GAL_DATA_OPERATOR_TO_UCHAR => Some GAL_DATA_TYPE_UCHAR
  | GAL_DATA_OPERATOR_TO_CHAR => Some GAL_DATA_TYPE_CHAR
  | GAL_DATA_OPERATOR_TO_USHORT => Some GAL_DATA_TYPE_USHORT
  | GAL_DATA_OPERATOR_TO_SHORT => Some GAL_DATA_TYPE_SHORT
  | GAL_DATA_OPERATOR_TO_UINT => Some GAL_DATA_TYPE_UINT
  | GAL_DATA_OPERATOR_TO_INT => Some GAL_DATA_TYPE_INT
  | GAL_DATA_OPERATOR_TO_ULONG => Some GAL_DATA_TYPE_ULONG
  | GAL_DATA_OPERATOR_TO_LONG => Some GAL_DATA_TYPE_LONG
  | GAL_DATA_OPERATOR_TO_LONGLONG => Some GAL_DATA_TYPE_LONGLONG
  | GAL_DATA_OPERATOR_TO_FLOAT => Some GAL_DATA_TYPE_FLOAT
  | GAL_DATA_OPERATOR_TO_DOUBLE => Some GAL_DATA_TYPE_DOUBLE
  | _ => None
  end.

(** The library function behind an operator code of the unary functions. *)
Definition unary_op (M : libm) (operator : gal_operator)
  : option (spec_float → spec_float) :=
  match operator with
  | GAL_DATA_OPERATOR_SQRT => Some (c_sqrt M)
  | GAL_DATA_OPERATOR_LOG => Some (c_log M)
  | GAL_DATA_OPERATOR_LOG10 => Some (c_log10 M)
  | _ => None
  end.

(** The element of each operand that meets element [i] of the output: the
    same element, or the only one of an operand that is a single number. *)
Definition left_index (ld rd : gal_data_t) (i : nat) : nat :=
  if (size ld =? size rd)%nat then i else if (size ld =? 1)%nat then 0%nat else i.

Definition right_index (ld rd : gal_data_t) (i : nat) : nat :=
  if (size ld =? size rd)%nat then i else if (size ld =? 1)%nat then i else 0%nat.

Definition element (d : gal_data_t) (i : nat) : scalar := default Undef (array d !! i).

(** The C type [where] reads each dataset through: its [switch]es have no
    case for the logical and bit types. *)
Definition where_c_type (t : gal_type) : option c_type :=
  match t with
  | GAL_DATA_TYPE_LOGICAL | GAL_DATA_TYPE_BIT => None
  | _ => c_type_of t
  end.

(** What one turn of the loop of [where] stores in element [i] of the
    output. *)
Definition where_element (ITT OT : c_type) (od cd id : gal_data_t) (i : nat) : scalar :=
  convert OT
    (convert (usual_arithmetic_conversion ITT OT)
       (if is_zero (element cd i) then element od i
        else element id (if (size id =? 1)%nat then 0%nat else i))).

(** The heap once [where] has freed its condition and its values, if the
    caller asked for it. *)
Definition where_cleanup (flags : N) (cond iftrue : loc) (h : heap) : heap :=
  if flag_set flags GAL_DATA_ARITH_FREE then delete iftrue (delete cond h) else h.

(** The buffer the loop leaves in the output. *)
Definition paired (OT : c_type) (OP : spec_float → spec_float → spec_float)
    (ld rd : gal_data_t) (n : nat) : list scalar :=
  (λ i, convert OT (call2 OP (element ld (left_index ld rd i))
                             (element rd (right_index ld rd i))))
  <$> seq 0 n.

(** The sanity check on the sizes lets the operands through. *)
Definition binary_accepts (flags : N) (ld rd : gal_data_t) : bool :=
  flag_set flags GAL_DATA_ARITH_NUMOK && ((size ld =? 1)%nat || (size rd =? 1)%nat)
  || negb (gal_data_dsize_is_different ld rd).

(** [out_size], the larger of the two sizes. *)
Definition out_size_of (ld rd : gal_data_t) : nat :=
  if (size rd <? size ld)%nat then size ld else size rd.

(** The heap once the inputs that are not the output have been freed, if
    the caller asked for it. *)
Definition binary_cleanup (flags : N) (l r o : loc) (h : heap) : heap :=
  if flag_set flags GAL_DATA_ARITH_FREE then
    if bool_decide (o = l) then delete r h
    else if bool_decide (o = r) then delete l h
    else delete r (delete l h)
  else h.

(** The operand whose shape a newly allocated output takes. *)
Definition shape_donor (ld rd : gal_data_t) : gal_data_t :=
  if (1 <? size ld)%nat then ld else rd.

(** An integer as a [float] and as a [double]. *)
Definition f32 (z : Z) : scalar := Flt (binary_normalize 24 128 z 0 false).

Definition f64 (z : Z) : scalar := Flt (binary_normalize 53 1024 z 0 false).

(** Datasets of the examples: the number 2, three and two squares, and the
    numbers from 1 to 5. *)
Definition number_2 : gal_data_t := dataset GAL_DATA_TYPE_FLOAT [1%nat] [f32 2].

Definition squares_3 : gal_data_t :=
  dataset GAL_DATA_TYPE_DOUBLE [3%nat] [f64 1; f64 4; f64 9].

Definition squares_2 : gal_data_t := dataset GAL_DATA_TYPE_FLOAT [2%nat] [f32 4; f32 9].

Definition ramp_5 : gal_data_t :=
  dataset GAL_DATA_TYPE_FLOAT [5%nat] [f32 1; f32 2; f32 3; f32 4; f32 5].

Definition ints_3 : gal_data_t := dataset GAL_DATA_TYPE_INT [3%nat] [Int 1; Int 2; Int 3].

(** A library for the examples: the correctly rounded square root, and no
    information ([NaN]) from the other three functions.  The theorems hold
    for every library. *)
Definition sample_libm : libm :=
  {| c_sqrt := SFsqrt 53 1024;
     c_log := λ _, S754_nan;
     c_log10 := λ _, S754_nan;
     c_pow := λ _ _, S754_nan |}.

(** The shape of a dataset: its number of dimensions and their lengths. *)
Definition shape (d : gal_data_t) : nat * list nat := (ndim d, dsize d).

(** The size check, in words: the operands have the same shape, or the
    caller said a single number is fine and one operand is one. *)
Definition accepted (flags : N) (ld rd : gal_data_t) : Prop :=
  (flag_set flags GAL_DATA_ARITH_NUMOK = true ∧ (size ld = 1%nat ∨ size rd = 1%nat))
  ∨ shape ld = shape rd.

(** Element [i] of the output is the function applied to element [li] of
    the left operand and element [ri] of the right one, converted to the
    type of the output. *)
Definition pairs_with (OP : spec_float → spec_float → spec_float) (ct : c_type)
    (ld rd od : gal_data_t) (i li ri : nat) : Prop :=
  ∃ a b, array ld !! li = Some a ∧ array rd !! ri = Some b
         ∧ array od !! i = Some (convert ct (call2 OP a b)).

(** Every dataset that was live and is not one of [touched] is still there,
    as it was. *)
Definition others_untouched (touched : list loc) (h h' : heap) : Prop :=
  ∀ p d, p ∉ touched → h !! p = Some d → h' !! p = Some d.

(** A value that is there. *)
Definition defined (v : scalar) : Prop := v ≠ Undef.

(** A value an object of an integer type can hold. *)
Definition holds (ct : c_type) (v : scalar) : bool :=
  match v with
  | Int z =>
      if c_is_signed ct
      then (- 2 ^ (c_bits ct - 1) <=? z) && (z <? 2 ^ (c_bits ct - 1))
      else (0 <=? z) && (z <? 2 ^ c_bits ct)
  | _ => false
  end.

(** The dataset [not] builds when its loop makes [k] turns: the first [k]
    elements negated, the rest never written. *)
Definition negated (d : gal_data_t) (k : nat) : gal_data_t :=
  {| array := ((λ x, convert c_unsigned_char (c_not x)) <$> take k (array d))
              ++ replicate (size d - k) Undef;
     type := GAL_DATA_TYPE_UCHAR; ndim := ndim d; dsize := dsize d;
     size := size d; wcs := wcs d; minmapsize := minmapsize d |}.

(** * Running the functions *)

(** ** Running a computation *)

(** Arithmetic on the sizes of the operands: cases on the comparisons the
    code makes, then linear arithmetic. *)
Ltac sizes :=
  unfold out_size_of, left_index, right_index, shape_donor in *;
  repeat match goal with
    | |- context [(?a <? ?b)%nat] => destruct (Nat.ltb_spec a b)
    | |- context [(?a =? ?b)%nat] => destruct (Nat.eqb_spec a b)
    | H : context [(?a <? ?b)%nat] |- _ => destruct (Nat.ltb_spec a b)
    | H : context [(?a =? ?b)%nat] |- _ => destruct (Nat.eqb_spec a b)
    end;
  lia.

(** The dataset just written at the output is still there once the inputs
    have been freed. *)
Ltac output_live :=
  destruct (flag_set _ GAL_DATA_ARITH_FREE);
  [rewrite ?lookup_delete_ne by done|]; apply lookup_insert_eq.

Lemma bind_Done {A B} (c : exec A) (k : A → exec B) (h h' : heap) a :
  c h = Done a h' → bind c k h = k a h'.
Proof. unfold bind. by intros ->. Qed.

Lemma bind_Exit {A B} (c : exec A) (k : A → exec B) (h h' : heap) e :
  c h = Exit e h' → bind c k h = Exit e h'.
Proof. unfold bind. by intros ->. Qed.

Lemma deref_live (h : heap) p d : h !! p = Some d → deref p h = Done d h.
Proof. unfold deref. by intros ->. Qed.

(** ** The loop *)

(** A [do ... while] that passes through the heaps [H k], [H (k+1)], ...
    and stops at the first [n] whose test fails ends in [H n]. *)
Lemma do_while_steps (H : nat → heap) body again n :
  again n = false →
  ∀ fuel k,
    (k < n)%nat → (n ≤ k + S fuel)%nat →
    (∀ i, (k ≤ i < n)%nat → body i (H i) = Done tt (H (S i))) →
    (∀ i, (k < i < n)%nat → again i = true) →
    do_while fuel body again k (H k) = Done tt (H n).
Proof.
  intros Hstop fuel. induction fuel as [|fuel IH]; intros k Hk Hfuel Hbody Hagain.
  - assert (n = S k) as -> by lia.
    simpl. rewrite Hbody by lia. by rewrite Hstop.
  - simpl. rewrite Hbody by lia.
    destruct (decide (S k = n)) as [<-|Hne].
    + by rewrite Hstop.
    + rewrite Hagain by lia. apply IH; [lia | lia | |].
      * intros i Hi. apply Hbody. lia.
      * intros i Hi. apply Hagain. lia.
Qed.

Lemma with_array_id d : with_array d (array d) = d.
Proof. by destruct d. Qed.

Lemma with_array_twice d a b : with_array (with_array d a) b = with_array d b.
Proof. done. Qed.

Lemma filled_0 a G : filled a G 0 = a.
Proof. done. Qed.

Lemma filled_length a G k : (k ≤ length a)%nat → length (filled a G k) = length a.
Proof.
  intros Hk. unfold filled.
  rewrite length_app, length_fmap, length_seq, length_drop. lia.
Qed.

Lemma filled_all a G : filled a G (length a) = G <$> seq 0 (length a).
Proof. unfold filled. by rewrite drop_all, app_nil_r. Qed.

Lemma filled_lookup_old a G k i :
  (k ≤ i)%nat → (k ≤ length a)%nat → filled a G k !! i = a !! i.
Proof.
  intros Hi Hk. unfold filled.
  rewrite lookup_app_r; rewrite length_fmap, length_seq; [|done].
  rewrite lookup_drop. f_equal. lia.
Qed.

Lemma filled_step a G k :
  (k < length a)%nat → <[k := G k]> (filled a G k) = filled a G (S k).
Proof.
  intros Hk. unfold filled.
  rewrite insert_app_r_alt; rewrite length_fmap, length_seq; [|done].
  rewrite Nat.sub_diag, seq_S, fmap_app, <- app_assoc. simpl.
  f_equal. destruct (drop k a) as [|x a'] eqn:Hd.
  - apply (f_equal length) in Hd. rewrite length_drop in Hd. simpl in Hd. lia.
  - simpl. f_equal.
    assert (drop 1 (drop k a) = a') as <- by (by rewrite Hd).
    rewrite drop_drop. f_equal. lia.
Qed.

(** Storing element [k] after the first [k]. *)
Lemma store_filled (h : heap) o d G k :
  (k < length (array d))%nat →
  store o k (G k) (<[o := with_array d (filled (array d) G k)]> h)
  = Done tt (<[o := with_array d (filled (array d) G (S k))]> h).
Proof.
  intros Hk. unfold store. rewrite lookup_insert_eq. simpl.
  rewrite filled_length by lia.
  destruct (Nat.ltb_spec k (length (array d))) as [_|?]; [|lia].
  by rewrite insert_insert_eq, with_array_twice, filled_step.
Qed.

Lemma load_insert_ne (h : heap) o d p i :
  o ≠ p →
  load p i (<[o := d]> h)
  = match h !! p with
    | Some pd => match array pd !! i with
                 | Some v => Done v (<[o := d]> h)
                 | None => Fault
                 end
    | None => Fault
    end.
Proof. intros Hne. unfold load. by rewrite lookup_insert_ne. Qed.

Lemma load_insert_eq (h : heap) o d i :
  load o i (<[o := d]> h)
  = match array d !! i with
    | Some v => Done v (<[o := d]> h)
    | None => Fault
    end.
Proof. unfold load. by rewrite lookup_insert_eq. Qed.

(** Reading element [i] of [p] while the output [o] is being filled, with
    [i] not yet written when [p] is the output itself. *)
Lemma load_while_filling (h : heap) o d G k p pd i v :
  h !! o = Some d → h !! p = Some pd → array pd !! i = Some v →
  (k ≤ length (array d))%nat → (p = o → (k ≤ i)%nat) →
  load p i (<[o := with_array d (filled (array d) G k)]> h)
  = Done v (<[o := with_array d (filled (array d) G k)]> h).
Proof.
  intros Ho Hp Hv Hk Halias.
  destruct (decide (o = p)) as [<-|Hne].
  - rewrite load_insert_eq. simpl.
    assert (pd = d) as -> by congruence.
    rewrite filled_lookup_old by auto. by rewrite Hv.
  - rewrite load_insert_ne by done. by rewrite Hp, Hv.
Qed.

Lemma fmap_seq_lookup (f : scalar → scalar) (a : list scalar) :
  (λ i, f (default Undef (a !! i))) <$> seq 0 (length a) = f <$> a.
Proof.
  apply list_eq. intros i. rewrite !list_lookup_fmap.
  destruct (a !! i) as [v|] eqn:Hv.
  - rewrite lookup_seq_lt by (by apply lookup_lt_Some in Hv). simpl. by rewrite Hv.
  - rewrite lookup_seq_ge by (by apply lookup_ge_None in Hv). done.
Qed.

Lemma lookup_is_default (a : list scalar) i :
  (i < length a)%nat → a !! i = Some (default Undef (a !! i)).
Proof. intros Hi. by destruct (lookup_lt_is_Some_2 a i Hi) as [v ->]. Qed.

Lemma element_lookup d i :
  (i < length (array d))%nat → array d !! i = Some (element d i).
Proof. apply lookup_is_default. Qed.

(** ** The loop of the unary functions *)

Lemma UNIFUNC_RUN_FUNCTION_spec IT OP inp o (h : heap) d od :
  h !! inp = Some d → h !! o = Some od →
  length (array od) = size od → length (array d) = size od →
  (0 < size od)%nat →
  UNIFUNC_RUN_FUNCTION IT OP inp o h
  = Done tt (<[o := with_array od ((λ x, convert IT (call1 OP x)) <$> array d)]> h).
Proof.
  intros Hin Ho Hlen Hlen' Hpos.
  unfold UNIFUNC_RUN_FUNCTION, bind at 1, deref. rewrite Ho.
  set (G := λ i, convert IT (call1 OP (default Undef (array d !! i)))).
  set (H := λ k, <[o := with_array od (filled (array od) G k)]> h).
  assert (h = H 0%nat) as Hh0.
  { unfold H. by rewrite filled_0, with_array_id, insert_id. }
  rewrite Hh0 at 1.
  rewrite (do_while_steps H _ _ (size od)).
  - unfold H. rewrite <- Hlen at 1. rewrite filled_all, Hlen, <- Hlen'.
    unfold G. by rewrite (fmap_seq_lookup (λ x, convert IT (call1 OP x))).
  - by rewrite Nat.ltb_irrefl.
  - done.
  - lia.
  - intros i [_ Hi]. unfold H, bind.
    rewrite (load_while_filling h o od G i inp d i (default Undef (array d !! i)));
      [| done | done | apply lookup_is_default; lia | lia | done].
    apply (store_filled h o od G i). lia.
  - intros i Hi. apply Nat.ltb_lt. lia.
Qed.

(** ** Allocation *)

Lemma fresh_not_live (h : heap) : h !! fresh (dom h) = None.
Proof. apply not_elem_of_dom, is_fresh. Qed.

Lemma live_not_fresh (h : heap) p d : h !! p = Some d → p ≠ fresh (dom h).
Proof. intros Hp ->. by rewrite fresh_not_live in Hp. Qed.

Lemma wf_data_spec d :
  wf_data d = true ↔
  length (array d) = size d ∧ length (dsize d) = ndim d ∧
  product (dsize d) = size d ∧ (0 < size d)%nat.
Proof.
  unfold wf_data. rewrite !andb_true_iff, !Nat.eqb_eq, Nat.ltb_lt. tauto.
Qed.

Lemma same_dsize_same_size ld rd :
  wf_data ld = true → wf_data rd = true →
  gal_data_dsize_is_different ld rd = false → size ld = size rd.
Proof.
  intros (_ & _ & Hl & _)%wf_data_spec (_ & _ & Hr & _)%wf_data_spec Hsame.
  unfold gal_data_dsize_is_different in Hsame.
  apply negb_false_iff, bool_decide_eq_true in Hsame as [_ Hds].
  by rewrite <- Hl, <- Hr, Hds.
Qed.

(** A freed dataset cannot be read any more. *)
Lemma load_after_free p i (h h' : heap) :
  gal_data_free p h = Done tt h' → load p i h' = Fault.
Proof.
  unfold gal_data_free, load. destruct (h !! p); [|done].
  intros [= <-]. by rewrite lookup_delete_eq.
Qed.

(** A dataset allocated with the shape of a well-formed one. *)
Lemma alloc_like (h : heap) d t w mms :
  wf_data d = true →
  gal_data_alloc t (ndim d) (dsize d) w false mms h
  = Done (fresh (dom h))
      (<[fresh (dom h) :=
           {| array := replicate (size d) Undef; type := t; ndim := ndim d;
              dsize := dsize d; size := size d; wcs := w; minmapsize := mms |}]> h).
Proof.
  intros (_ & Hnd & Hprod & _)%wf_data_spec. unfold gal_data_alloc.
  by rewrite <- Hnd, firstn_all, Hprod.
Qed.

(** ** Loops whose end pointer is counted in bytes *)

Lemma sizeof_pos t : (0 < sizeof t)%nat.
Proof. destruct t; simpl; lia. Qed.

Lemma turns_stop step finish :
  (0 < step)%nat → (turns step finish * step <? finish)%nat = false.
Proof.
  intros Hs. apply Nat.ltb_ge. unfold turns.
  pose proof (Nat.mul_succ_div_gt (finish - 1) step ltac:(lia)). lia.
Qed.

Lemma turns_again step finish i :
  (0 < step)%nat → (0 < i < turns step finish)%nat →
  (i * step <? finish)%nat = true.
Proof.
  intros Hs [Hi Hlt]. apply Nat.ltb_lt. unfold turns in Hlt.
  pose proof (Nat.Div0.mul_div_le (finish - 1) step).
  assert (i * step ≤ (finish - 1) / step * step)%nat
    by (apply Nat.mul_le_mono_r; lia).
  destruct finish as [|finish]; [|lia].
  simpl in Hlt. rewrite Nat.Div0.div_0_l in Hlt. lia.
Qed.

Lemma turns_le step finish :
  (0 < step)%nat → (0 < finish)%nat → (turns step finish ≤ finish)%nat.
Proof.
  intros Hs Hf. unfold turns.
  pose proof (Nat.Div0.mul_div_le (finish - 1) step).
  assert ((finish - 1) / step ≤ step * ((finish - 1) / step))%nat by nia. lia.
Qed.

Lemma turns_one finish : (0 < finish)%nat → turns 1 finish = finish.
Proof. intros Hf. unfold turns. rewrite Nat.div_1_r. lia. Qed.

Lemma filled_replicate (a : list scalar) (f : scalar → scalar) n k :
  (k ≤ length a)%nat →
  filled (replicate n Undef) (λ i, f (default Undef (a !! i))) k
  = (f <$> take k a) ++ replicate (n - k) Undef.
Proof.
  intros Hk. unfold filled. rewrite drop_replicate. f_equal.
  rewrite <- (fmap_seq_lookup f (take k a)), length_take, Nat.min_l by done.
  apply list_fmap_ext. intros i j Hj.
  apply lookup_seq in Hj as [-> Hj]. simpl. by rewrite lookup_take_lt.
Qed.

Lemma TYPE_CASE_FOR_NOT_spec IN_type data out (h : heap) d od :
  h !! data = Some d → h !! out = Some od → data ≠ out →
  length (array d) = size d → length (array od) = size d → (0 < size d)%nat →
  TYPE_CASE_FOR_NOT IN_type data out (size d) h
  = Done tt
      (<[out := with_array od
                  (filled (array od)
                     (λ i, convert c_unsigned_char (c_not (element d i)))
                     (turns (sizeof IN_type) (size d)))]> h).
Proof.
  intros Hd Ho Hne Hlen Hleno Hpos. unfold TYPE_CASE_FOR_NOT.
  pose proof (sizeof_pos IN_type) as Hw.
  pose proof (turns_le (sizeof IN_type) (size d) Hw Hpos) as Hle.
  set (G := λ i, convert c_unsigned_char (c_not (element d i))).
  set (H := λ k, <[out := with_array od (filled (array od) G k)]> h).
  assert (h = H 0%nat) as Hh0.
  { unfold H. by rewrite filled_0, with_array_id, insert_id. }
  rewrite Hh0 at 1.
  apply (do_while_steps H _ _ (turns (sizeof IN_type) (size d))).
  - by apply turns_stop.
  - unfold turns. lia.
  - lia.
  - intros i [_ Hi]. unfold H, bind.
    rewrite (load_while_filling h out od G i data d i (element d i));
      [| done | done | apply element_lookup; lia | lia | done].
    apply (store_filled h out od G i). lia.
  - intros i Hi. by apply turns_again.
Qed.

(** The result of the negation: the first [turns] elements are negated and
    the rest of the new buffer is never written. *)
Lemma data_arithmetic_not_spec data flags (h : heap) d ct :
  h !! data = Some d → wf_data d = true → c_type_of (type d) = Some ct →
  data_arithmetic_not data flags h
  = let o := fresh (dom h) in
    let k := turns (sizeof ct) (size d) in
    let h' :=
      <[o := {| array := ((λ x, convert c_unsigned_char (c_not x)) <$> take k (array d))
                         ++ replicate (size d - k) Undef;
                type := GAL_DATA_TYPE_UCHAR; ndim := ndim d; dsize := dsize d;
                size := size d; wcs := wcs d; minmapsize := minmapsize d |}]> h in
    Done o (if flag_set flags GAL_DATA_ARITH_FREE then delete data h' else h').
Proof.
  intros Hd Hwf Hct.
  pose proof Hwf as (Hlen & _ & _ & Hpos)%wf_data_spec.
  pose proof (live_not_fresh h data d Hd) as Hne.
  pose proof (turns_le (sizeof ct) (size d) (sizeof_pos ct) Hpos) as Hle.
  unfold data_arithmetic_not.
  rewrite (bind_Done _ _ _ _ _ (deref_live h data d Hd)).
  rewrite (bind_Done _ _ _ _ _ (alloc_like h d _ _ _ Hwf)).
  set (o := fresh (dom h)) in *.
  set (od := {| array := replicate (size d) Undef; type := GAL_DATA_TYPE_UCHAR |}).
  assert (TYPE_CASE_FOR_NOT ct data o (size d) (<[o := od]> h)
          = Done tt
              (<[o := with_array od
                        (((λ x, convert c_unsigned_char (c_not x))
                          <$> take (turns (sizeof ct) (size d)) (array d))
                         ++ replicate (size d - turns (sizeof ct) (size d)) Undef)]> h))
    as Hloop.
  { rewrite (TYPE_CASE_FOR_NOT_spec ct data o _ d od);
      [| by rewrite lookup_insert_ne | by rewrite lookup_insert_eq | done | done
       | by simpl; rewrite length_replicate | done].
    rewrite insert_insert_eq. simpl. unfold element.
    by rewrite (filled_replicate (array d)
                  (λ x, convert c_unsigned_char (c_not x))) by lia. }
  assert (∀ c : exec unit, c (<[o := od]> h) = TYPE_CASE_FOR_NOT ct data o (size d) (<[o := od]> h) →
    (c ;;; (if flag_set flags GAL_DATA_ARITH_FREE then gal_data_free data else ret ()) ;;;
     ret o) (<[o := od]> h)
    = let h' := <[o := with_array od
                        (((λ x, convert c_unsigned_char (c_not x))
                          <$> take (turns (sizeof ct) (size d)) (array d))
                         ++ replicate (size d - turns (sizeof ct) (size d)) Undef)]> h in
      Done o (if flag_set flags GAL_DATA_ARITH_FREE then delete data h' else h'))
    as Hrest.
  { intros c Hc. unfold bind at 1. rewrite Hc, Hloop. simpl.
    unfold bind, gal_data_free, ret.
    destruct (flag_set flags GAL_DATA_ARITH_FREE); [|done].
    by rewrite lookup_insert_ne, Hd. }
  destruct (type d); try discriminate; injection Hct as <-; by apply Hrest.
Qed.

(** ** The loop of [where] *)

Lemma DO_WHERE_OPERATION_spec ITT OT out cond iftrue (h : heap) od cd id :
  h !! out = Some od → h !! cond = Some cd → h !! iftrue = Some id →
  out ≠ cond → out ≠ iftrue →
  length (array od) = size od → (0 < size od)%nat →
  (size od ≤ length (array cd))%nat →
  (if (size id =? 1)%nat then 0 < length (array id)
   else size od ≤ length (array id))%nat →
  DO_WHERE_OPERATION ITT OT out cond iftrue h
  = Done tt
      (<[out := with_array od
                  (filled (array od) (where_element ITT OT od cd id)
                     (turns (sizeof OT) (size od)))]> h).
Proof.
  intros Ho Hc Hi Hnc Hni Hlen Hpos Hlenc Hleni.
  pose proof (sizeof_pos OT) as Hw.
  pose proof (turns_le (sizeof OT) (size od) Hw Hpos) as Hle.
  unfold DO_WHERE_OPERATION.
  rewrite (bind_Done _ _ _ _ _ (deref_live h out od Ho)).
  rewrite (bind_Done _ _ _ _ _ (deref_live h iftrue id Hi)).
  set (G := where_element ITT OT od cd id).
  set (H := λ k, <[out := with_array od (filled (array od) G k)]> h).
  assert (h = H 0%nat) as Hh0.
  { unfold H. by rewrite filled_0, with_array_id, insert_id. }
  assert (∀ j : nat → nat,
    (∀ i, (i < size od)%nat → (j i < length (array id))%nat) →
    (∀ i, j i = if (size id =? 1)%nat then 0%nat else i) →
    do_while (size od)
      (fun i => let* c := load cond i in
                let* v := if is_zero c then load out i else load iftrue (j i) in
                store out i
                  (convert OT (convert (usual_arithmetic_conversion ITT OT) v)))
      (fun i => (i * sizeof OT <? size od)%nat) 0%nat h
    = Done tt (H (turns (sizeof OT) (size od)))) as Hloop.
  { intros j Hj Hjdef. rewrite Hh0 at 1.
    apply (do_while_steps H _ _ (turns (sizeof OT) (size od))).
    - by apply turns_stop.
    - unfold turns. lia.
    - lia.
    - intros i [_ Hlt]. unfold H.
      rewrite (bind_Done _ _ _ _ _
                 (load_while_filling h out od G i cond cd i (element cd i)
                    Ho Hc ltac:(apply element_lookup; lia) ltac:(lia)
                    ltac:(intros E; by rewrite E in Hnc))).
      assert (G i = convert OT (convert (usual_arithmetic_conversion ITT OT)
                (if is_zero (element cd i) then element od i
                 else element id (j i)))) as HG
        by (unfold G, where_element; by rewrite Hjdef).
      destruct (is_zero (element cd i)).
      + rewrite (bind_Done _ _ _ _ _
                   (load_while_filling h out od G i out od i (element od i)
                      Ho Ho ltac:(apply element_lookup; lia) ltac:(lia)
                      ltac:(done))).
        rewrite <- HG. apply (store_filled h out od G i). lia.
      + rewrite (bind_Done _ _ _ _ _
                   (load_while_filling h out od G i iftrue id (j i) (element id (j i))
                      Ho Hi ltac:(apply element_lookup; apply Hj; lia) ltac:(lia)
                      ltac:(intros E; by rewrite E in Hni))).
        rewrite <- HG. apply (store_filled h out od G i). lia.
    - intros i Hlt. by apply turns_again. }
  destruct (size id =? 1)%nat eqn:Hone.
  - apply (Hloop (λ _, 0%nat)); [intros; lia | done].
  - apply (Hloop (λ i, i)); [intros; lia | done].
Qed.

Lemma WHERE_OUT_SET_spec ITT OT out cond iftrue (h : heap) od cd id :
  h !! out = Some od → h !! cond = Some cd → h !! iftrue = Some id →
  out ≠ cond → out ≠ iftrue →
  where_c_type (type id) = Some ITT →
  length (array od) = size od → (0 < size od)%nat →
  (size od ≤ length (array cd))%nat →
  (if (size id =? 1)%nat then 0 < length (array id)
   else size od ≤ length (array id))%nat →
  WHERE_OUT_SET OT out cond iftrue h
  = Done tt
      (<[out := with_array od
                  (filled (array od) (where_element ITT OT od cd id)
                     (turns (sizeof OT) (size od)))]> h).
Proof.
  intros Ho Hc Hi Hnc Hni Hitt Hlen Hpos Hlenc Hleni. unfold WHERE_OUT_SET.
  rewrite (bind_Done _ _ _ _ _ (deref_live h iftrue id Hi)).
  destruct (type id); try discriminate; injection Hitt as <-;
    by apply DO_WHERE_OPERATION_spec.
Qed.

(** What [where] does once its two checks have passed. *)
Lemma data_arithmetic_where_spec operator flags out cond iftrue (h : heap)
    od cd id ITT OT :
  h !! out = Some od → h !! cond = Some cd → h !! iftrue = Some id →
  out ≠ cond → out ≠ iftrue → cond ≠ iftrue →
  wf_data od = true → wf_data cd = true → wf_data id = true →
  type cd = GAL_DATA_TYPE_UCHAR →
  gal_data_dsize_is_different od cd = false →
  where_c_type (type od) = Some OT → where_c_type (type id) = Some ITT →
  size id = size od ∨ size id = 1%nat →
  data_arithmetic_where operator flags out cond iftrue h
  = Done tt
      (where_cleanup flags cond iftrue
         (<[out := with_array od
                     (filled (array od) (where_element ITT OT od cd id)
                        (turns (sizeof OT) (size od)))]> h)).
Proof.
  intros Ho Hc Hi Hnc Hni Hci Hwo Hwc Hwi Htc Hsame Hot Hitt Hsz.
  pose proof (same_dsize_same_size od cd Hwo Hwc Hsame) as Hsize.
  pose proof Hwo as (Hlo & _ & _ & Hpo)%wf_data_spec.
  pose proof Hwc as (Hlc & _ & _ & _)%wf_data_spec.
  pose proof Hwi as (Hli & _ & _ & Hpi)%wf_data_spec.
  unfold data_arithmetic_where.
  rewrite (bind_Done _ _ _ _ _ (deref_live h cond cd Hc)).
  rewrite bool_decide_eq_true_2 by done. simpl.
  unfold bind at 1, ret at 1.
  rewrite (bind_Done _ _ _ _ _ (deref_live h out od Ho)).
  rewrite Hsame. unfold bind at 1, ret at 1.
  assert (WHERE_OUT_SET OT out cond iftrue h
          = Done tt
              (<[out := with_array od
                          (filled (array od) (where_element ITT OT od cd id)
                             (turns (sizeof OT) (size od)))]> h)) as Hset.
  { apply WHERE_OUT_SET_spec; try done; [lia|].
    destruct (Nat.eqb_spec (size id) 1); lia. }
  assert (∀ c : exec unit, c h = WHERE_OUT_SET OT out cond iftrue h →
    (c ;;; (if flag_set flags GAL_DATA_ARITH_FREE
            then (gal_data_free cond ;;; gal_data_free iftrue) else ret ())) h
    = Done tt
        (where_cleanup flags cond iftrue
           (<[out := with_array od
                       (filled (array od) (where_element ITT OT od cd id)
                          (turns (sizeof OT) (size od)))]> h))) as Hrest.
  { intros c Hcz. unfold bind at 1. rewrite Hcz, Hset.
    unfold where_cleanup, bind, gal_data_free, ret.
    destruct (flag_set flags GAL_DATA_ARITH_FREE); [|done].
    rewrite lookup_insert_ne, Hc by done.
    by rewrite lookup_delete_ne, lookup_insert_ne, Hi. }
  destruct (type od); try discriminate; injection Hot as <-; by apply Hrest.
Qed.

(** ** The unary functions *)

Lemma check_float_input_ok inp operator numstr (h : heap) d :
  h !! inp = Some d → is_float_type (type d) = true →
  check_float_input inp operator numstr h = Done tt h.
Proof.
  intros Hin Hf. unfold check_float_input, bind, deref. rewrite Hin.
  by destruct (type d).
Qed.

Lemma check_float_input_fails inp operator numstr (h : heap) d :
  h !! inp = Some d → is_float_type (type d) = false →
  check_float_input inp operator numstr h
  = Exit (NotFloatOperand operator numstr (type d)) h.
Proof.
  intros Hin Hf. unfold check_float_input, bind, deref. rewrite Hin.
  by destruct (type d).
Qed.

Lemma UNIFUNC_F_OPERATOR_DONE_spec OP inp o (h : heap) d od ct :
  h !! inp = Some d → h !! o = Some od →
  is_float_type (type d) = true → c_type_of (type d) = Some ct →
  length (array od) = size od → length (array d) = size od →
  (0 < size od)%nat →
  UNIFUNC_F_OPERATOR_DONE OP inp o h
  = Done tt (<[o := with_array od ((λ x, convert ct (call1 OP x)) <$> array d)]> h).
Proof.
  intros Hin Ho Hf Hct Hlen Hlen' Hpos.
  unfold UNIFUNC_F_OPERATOR_DONE, bind at 1, deref. rewrite Hin.
  destruct (type d); try discriminate; injection Hct as <-;
    by apply UNIFUNC_RUN_FUNCTION_spec.
Qed.

(** With the in-place flag the function works in the buffer of its input
    and returns the input. *)
Lemma unary_function_f_inplace M operator OP flags inp (h : heap) d ct :
  unary_op M operator = Some OP →
  h !! inp = Some d → wf_data d = true →
  is_float_type (type d) = true → c_type_of (type d) = Some ct →
  flag_set flags GAL_DATA_ARITH_INPLACE = true →
  data_arithmetic_unary_function_f M operator flags inp h
  = Done inp (<[inp := with_array d ((λ x, convert ct (call1 OP x)) <$> array d)]> h).
Proof.
  intros Hop Hin Hwf Hf Hct Hflag.
  pose proof Hwf as (Hlen & _ & _ & Hpos)%wf_data_spec.
  unfold data_arithmetic_unary_function_f, bind at 1.
  rewrite (check_float_input_ok _ _ _ _ d) by done.
  rewrite Hflag. unfold bind at 1, ret at 1.
  assert (∀ (k : exec loc),
    (UNIFUNC_F_OPERATOR_DONE OP inp inp ;;; k) h
    = k (<[inp := with_array d ((λ x, convert ct (call1 OP x)) <$> array d)]> h))
    as Hrun.
  { intros k. unfold bind.
    by rewrite (UNIFUNC_F_OPERATOR_DONE_spec OP inp inp h d d ct). }
  rewrite bool_decide_eq_true_2, andb_false_r by done.
  destruct operator; try discriminate; injection Hop as <-; by rewrite Hrun.
Qed.

(** Without it the function allocates a dataset like its input, fills it,
    and then frees the input if it was asked to. *)
Lemma unary_function_f_alloc M operator OP flags inp (h : heap) d ct :
  unary_op M operator = Some OP →
  h !! inp = Some d → wf_data d = true →
  is_float_type (type d) = true → c_type_of (type d) = Some ct →
  flag_set flags GAL_DATA_ARITH_INPLACE = false →
  data_arithmetic_unary_function_f M operator flags inp h
  = let o := fresh (dom h) in
    let h' := <[o := with_array d ((λ x, convert ct (call1 OP x)) <$> array d)]> h in
    Done o (if flag_set flags GAL_DATA_ARITH_FREE then delete inp h' else h').
Proof.
  intros Hop Hin Hwf Hf Hct Hflag.
  pose proof Hwf as (Hlen & _ & _ & Hpos)%wf_data_spec.
  pose proof (live_not_fresh h inp d Hin) as Hne.
  unfold data_arithmetic_unary_function_f, bind at 1.
  rewrite (check_float_input_ok _ _ _ _ d) by done.
  rewrite Hflag. unfold bind at 1, bind at 1, deref at 1. rewrite Hin.
  rewrite alloc_like by done.
  set (o := fresh (dom h)) in *.
  set (od := {| array := replicate (size d) Undef; type := type d |}).
  assert (∀ (k : exec loc),
    (UNIFUNC_F_OPERATOR_DONE OP inp o ;;; k) (<[o := od]> h)
    = k (<[o := with_array d ((λ x, convert ct (call1 OP x)) <$> array d)]> h))
    as Hrun.
  { intros k. unfold bind.
    rewrite (UNIFUNC_F_OPERATOR_DONE_spec OP inp o _ d od ct);
      [| by rewrite lookup_insert_ne | by rewrite lookup_insert_eq | done | done
       | by simpl; rewrite length_replicate | done | done].
    by rewrite insert_insert_eq. }
  assert (bool_decide (o = inp) = false) as -> by (by apply bool_decide_eq_false_2).
  rewrite andb_true_r.
  assert (∀ h0 : heap, h0 !! inp = Some d →
    ((if flag_set flags GAL_DATA_ARITH_FREE then gal_data_free inp else ret ()) ;;;
     ret o) h0
    = Done o (if flag_set flags GAL_DATA_ARITH_FREE then delete inp h0 else h0))
    as Hfree.
  { intros h0 Hh0. unfold bind, gal_data_free, ret.
    destruct (flag_set flags GAL_DATA_ARITH_FREE); [by rewrite Hh0 | done]. }
  destruct operator; try discriminate; injection Hop as <-;
    rewrite Hrun; simpl; apply Hfree; by rewrite lookup_insert_ne.
Qed.

(** ** The loop of the binary functions *)

Lemma binary_loop OT OP l r o (li ri : nat → nat) (h : heap) ld rd od :
  h !! l = Some ld → h !! r = Some rd → h !! o = Some od →
  length (array od) = size od → (0 < size od)%nat →
  (∀ i, (i < size od)%nat →
        (li i < length (array ld))%nat ∧ (ri i < length (array rd))%nat) →
  (l = o → ∀ i, (i < size od)%nat → li i = i) →
  (r = o → ∀ i, (i < size od)%nat → ri i = i) →
  do_while (size od)
    (fun i => let* a := load l (li i) in
              let* b := load r (ri i) in
              store o i (convert OT (call2 OP a b)))
    (fun i => (i <? size od)%nat) 0%nat h
  = Done tt
      (<[o := with_array od
               ((λ i, convert OT (call2 OP (element ld (li i)) (element rd (ri i))))
                <$> seq 0 (size od))]> h).
Proof.
  intros Hl Hr Ho Hlen Hpos Hbound Hla Hra.
  set (G := λ i, convert OT (call2 OP (element ld (li i)) (element rd (ri i)))).
  set (H := λ k, <[o := with_array od (filled (array od) G k)]> h).
  assert (h = H 0%nat) as Hh0.
  { unfold H. by rewrite filled_0, with_array_id, insert_id. }
  rewrite Hh0 at 1.
  rewrite (do_while_steps H _ _ (size od)).
  - unfold H. rewrite <- Hlen at 1. by rewrite filled_all, Hlen.
  - by rewrite Nat.ltb_irrefl.
  - done.
  - lia.
  - intros i [_ Hi]. destruct (Hbound i Hi) as [Hli Hri]. unfold H, bind.
    rewrite (load_while_filling h o od G i l ld (li i) (element ld (li i)));
      [| done | done | by apply lookup_is_default | lia
       | by intros E; rewrite (Hla E i Hi)].
    rewrite (load_while_filling h o od G i r rd (ri i) (element rd (ri i)));
      [| done | done | by apply lookup_is_default | lia
       | by intros E; rewrite (Hra E i Hi)].
    apply (store_filled h o od G i). lia.
  - intros i Hi. apply Nat.ltb_lt. lia.
Qed.

Lemma BINFUNC_RUN_FUNCTION_spec OT RT LT OP l r o (h : heap) ld rd od :
  h !! l = Some ld → h !! r = Some rd → h !! o = Some od →
  length (array od) = size od → (0 < size od)%nat →
  (∀ i, (i < size od)%nat →
        (left_index ld rd i < length (array ld))%nat
        ∧ (right_index ld rd i < length (array rd))%nat) →
  (l = o → ∀ i, (i < size od)%nat → left_index ld rd i = i) →
  (r = o → ∀ i, (i < size od)%nat → right_index ld rd i = i) →
  BINFUNC_RUN_FUNCTION OT RT LT OP l r o h
  = Done tt (<[o := with_array od (paired OT OP ld rd (size od))]> h).
Proof.
  intros Hl Hr Ho Hlen Hpos Hbound Hla Hra.
  unfold BINFUNC_RUN_FUNCTION, bind at 1, deref at 1. rewrite Hl.
  unfold bind at 1, deref at 1. rewrite Hr.
  unfold bind at 1, deref at 1. rewrite Ho.
  unfold paired, left_index, right_index in *.
  destruct (size ld =? size rd)%nat; [|destruct (size ld =? 1)%nat].
  - by apply (binary_loop OT OP l r o (λ i, i) (λ i, i) h ld rd od).
  - by apply (binary_loop OT OP l r o (λ _, 0%nat) (λ i, i) h ld rd od).
  - by apply (binary_loop OT OP l r o (λ i, i) (λ _, 0%nat) h ld rd od).
Qed.

Lemma BINFUNC_F_OPERATOR_SET_spec OP l r o (h : heap) ld rd od ct :
  h !! l = Some ld → h !! r = Some rd → h !! o = Some od →
  is_float_type (type ld) = true → is_float_type (type rd) = true →
  is_float_type (type od) = true → c_type_of (type od) = Some ct →
  length (array od) = size od → (0 < size od)%nat →
  (∀ i, (i < size od)%nat →
        (left_index ld rd i < length (array ld))%nat
        ∧ (right_index ld rd i < length (array rd))%nat) →
  (l = o → ∀ i, (i < size od)%nat → left_index ld rd i = i) →
  (r = o → ∀ i, (i < size od)%nat → right_index ld rd i = i) →
  BINFUNC_F_OPERATOR_SET OP l r o h
  = Done tt (<[o := with_array od (paired ct OP ld rd (size od))]> h).
Proof.
  intros Hl Hr Ho Hfl Hfr Hfo Hct Hlen Hpos Hbound Hla Hra.
  unfold BINFUNC_F_OPERATOR_SET, bind at 1, deref at 1. rewrite Hl.
  destruct (type ld); try discriminate;
    (unfold BINFUNC_F_OPERATOR_LEFT_SET, bind at 1, deref at 1; rewrite Hr;
     destruct (type rd); try discriminate;
     (unfold BINFUNC_F_OPERATOR_LEFT_RIGHT_SET, bind at 1, deref at 1; rewrite Ho;
      destruct (type od); try discriminate; injection Hct as <-;
      by apply BINFUNC_RUN_FUNCTION_spec)).
Qed.

(** ** The binary function *)

Lemma binary_cleanup_lookup flags l r o (h : heap) :
  l ≠ r → binary_cleanup flags l r o h !! o = h !! o.
Proof.
  intros Hne. unfold binary_cleanup.
  destruct (flag_set flags GAL_DATA_ARITH_FREE); [|done].
  repeat case_bool_decide; subst.
  - by rewrite lookup_delete_ne.
  - by rewrite lookup_delete_ne.
  - by rewrite !lookup_delete_ne.
Qed.

(** Operands that pass the check have the same size, or one of them is a
    single number. *)
Lemma accepted_sizes flags ld rd :
  wf_data ld = true → wf_data rd = true → binary_accepts flags ld rd = true →
  size ld = size rd ∨ size ld = 1%nat ∨ size rd = 1%nat.
Proof.
  intros Hwl Hwr Hacc. unfold binary_accepts in Hacc.
  apply orb_true_iff in Hacc as [Hnum|Hsame].
  - apply andb_true_iff in Hnum as [_ Hone].
    apply orb_true_iff in Hone as [?%Nat.eqb_eq|?%Nat.eqb_eq]; auto.
  - left. apply same_dsize_same_size; [done..|]. by apply negb_true_iff.
Qed.

Lemma size_check_passes flags ld rd (h : heap) :
  binary_accepts flags ld rd = true →
  (if negb (flag_set flags GAL_DATA_ARITH_NUMOK
            && ((size ld =? 1)%nat || (size rd =? 1)%nat))
      && gal_data_dsize_is_different ld rd
   then error InputsDifferentSize else ret tt) h = Done tt h.
Proof.
  unfold binary_accepts. intros Hacc.
  destruct (flag_set flags GAL_DATA_ARITH_NUMOK
            && ((size ld =? 1)%nat || (size rd =? 1)%nat)); [done|].
  simpl in *. apply negb_true_iff in Hacc. by rewrite Hacc.
Qed.

Lemma size_check_fails flags ld rd (h : heap) :
  binary_accepts flags ld rd = false →
  (if negb (flag_set flags GAL_DATA_ARITH_NUMOK
            && ((size ld =? 1)%nat || (size rd =? 1)%nat))
      && gal_data_dsize_is_different ld rd
   then error InputsDifferentSize else ret tt) h = Exit InputsDifferentSize h.
Proof.
  unfold binary_accepts. intros Hacc.
  apply orb_false_iff in Hacc as [-> Hdiff]. apply negb_false_iff in Hdiff.
  by rewrite Hdiff.
Qed.

(** The loop and the clean-up, from a heap in which the output [o] is live. *)
Lemma binary_tail M flags l r o (h : heap) ld rd od ct :
  l ≠ r →
  h !! l = Some ld → h !! r = Some rd → h !! o = Some od →
  wf_data ld = true → wf_data rd = true →
  is_float_type (type ld) = true → is_float_type (type rd) = true →
  is_float_type (type od) = true → c_type_of (type od) = Some ct →
  binary_accepts flags ld rd = true →
  length (array od) = size od → size od = out_size_of ld rd →
  (BINFUNC_F_OPERATOR_SET (c_pow M) l r o ;;;
   (if flag_set flags GAL_DATA_ARITH_FREE then
      if bool_decide (o = l) then gal_data_free r
      else if bool_decide (o = r) then gal_data_free l
      else (gal_data_free l ;;; gal_data_free r)
    else ret tt) ;;;
   ret o) h
  = Done o (binary_cleanup flags l r o
              (<[o := with_array od (paired ct (c_pow M) ld rd (out_size_of ld rd))]> h)).
Proof.
  intros Hne Hl Hr Ho Hwl Hwr Hfl Hfr Hfo Hct Hacc Hlen Hsize.
  pose proof (accepted_sizes flags ld rd Hwl Hwr Hacc) as Hsizes.
  pose proof Hwl as (Hll & _ & _ & Hpl)%wf_data_spec.
  pose proof Hwr as (Hlr & _ & _ & Hpr)%wf_data_spec.
  unfold bind at 1.
  rewrite (BINFUNC_F_OPERATOR_SET_spec (c_pow M) l r o h ld rd od ct); try done.
  - rewrite Hsize.
    set (h' := <[o := _]> h).
    assert (∀ p d, p ≠ o → h !! p = Some d → h' !! p = Some d) as Hother.
    { intros p d Hp Hd. unfold h'. by rewrite lookup_insert_ne. }
    unfold binary_cleanup, bind, ret, gal_data_free.
    destruct (flag_set flags GAL_DATA_ARITH_FREE); [|done].
    repeat case_bool_decide; subst.
    + by rewrite (Hother r rd).
    + by rewrite (Hother l ld).
    + rewrite (Hother l ld) by done. rewrite lookup_delete_ne by done.
      by rewrite (Hother r rd).
  - rewrite Hsize. sizes.
  - rewrite Hsize. intros i Hi. sizes.
  - intros <-. assert (od = ld) as -> by congruence.
    intros i Hi. sizes.
  - intros <-. assert (od = rd) as -> by congruence.
    intros i Hi. sizes.
Qed.

Lemma out_type_float ld rd :
  is_float_type (type ld) = true → is_float_type (type rd) = true →
  is_float_type (gal_data_out_type ld rd) = true
  ∧ ∃ ct, c_type_of (gal_data_out_type ld rd) = Some ct.
Proof.
  intros Hl Hr. unfold gal_data_out_type. case_decide; [by eauto|].
  split; [done|]. destruct (type ld); try discriminate; by eauto.
Qed.

(** Which operand [inplace_output] picks, and when. *)
Lemma inplace_output_Some flags final n l r ld rd p :
  inplace_output flags final n l r ld rd = Some p →
  flag_set flags GAL_DATA_ARITH_INPLACE = true
  ∧ (p = l ∧ type ld = final ∧ n = size ld
     ∨ p = r ∧ ¬ (type ld = final ∧ n = size ld) ∧ type rd = final ∧ n = size rd).
Proof.
  unfold inplace_output. intros Hp.
  destruct (flag_set flags GAL_DATA_ARITH_INPLACE); [|done]. split; [done|].
  destruct (bool_decide (type ld = final) && (n =? size ld)%nat) eqn:Hql.
  - apply andb_true_iff in Hql as [?%bool_decide_eq_true ?%Nat.eqb_eq].
    left. by injection Hp as <-.
  - destruct (bool_decide (type rd = final) && (n =? size rd)%nat) eqn:Hqr; [|done].
    apply andb_true_iff in Hqr as [?%bool_decide_eq_true ?%Nat.eqb_eq].
    right. injection Hp as <-. repeat split; try done.
    intros [Ht Hn]. apply andb_false_iff in Hql as [Hql|Hql].
    + by apply bool_decide_eq_false in Hql.
    + apply Nat.eqb_neq in Hql. done.
Qed.

Lemma inplace_output_None flags final n l r ld rd :
  inplace_output flags final n l r ld rd = None →
  flag_set flags GAL_DATA_ARITH_INPLACE = false
  ∨ ¬ (type ld = final ∧ n = size ld) ∧ ¬ (type rd = final ∧ n = size rd).
Proof.
  unfold inplace_output. intros Hp.
  destruct (flag_set flags GAL_DATA_ARITH_INPLACE); [|by left]. right.
  destruct (bool_decide (type ld = final) && (n =? size ld)%nat) eqn:Hql; [done|].
  destruct (bool_decide (type rd = final) && (n =? size rd)%nat) eqn:Hqr; [done|].
  split; intros [Ht Hn].
  - apply andb_false_iff in Hql as [Hq|Hq];
      [by apply bool_decide_eq_false in Hq | by apply Nat.eqb_neq in Hq].
  - apply andb_false_iff in Hqr as [Hq|Hq];
      [by apply bool_decide_eq_false in Hq | by apply Nat.eqb_neq in Hq].
Qed.

Lemma shape_donor_size flags ld rd :
  wf_data ld = true → wf_data rd = true → binary_accepts flags ld rd = true →
  size (shape_donor ld rd) = out_size_of ld rd.
Proof.
  intros Hwl Hwr Hacc.
  pose proof (accepted_sizes flags ld rd Hwl Hwr Hacc).
  apply wf_data_spec in Hwl as (_ & _ & _ & ?).
  apply wf_data_spec in Hwr as (_ & _ & _ & ?).
  sizes.
Qed.

(** What the binary function does with two distinct, well-formed floating
    point operands that pass the size check. *)
Lemma binary_function_f_spec M flags l r (h : heap) ld rd :
  l ≠ r → h !! l = Some ld → h !! r = Some rd →
  wf_data ld = true → wf_data rd = true →
  is_float_type (type ld) = true → is_float_type (type rd) = true →
  binary_accepts flags ld rd = true →
  ∃ o od ct,
    data_arithmetic_binary_function_f M GAL_DATA_OPERATOR_POW flags l r h
    = Done o (binary_cleanup flags l r o (<[o := od]> h))
    ∧ c_type_of (gal_data_out_type ld rd) = Some ct
    ∧ array od = paired ct (c_pow M) ld rd (out_size_of ld rd)
    ∧ type od = gal_data_out_type ld rd
    ∧ size od = out_size_of ld rd
    ∧ match inplace_output flags (gal_data_out_type ld rd) (out_size_of ld rd)
              l r ld rd with
      | Some p => o = p ∧ ∃ pd, h !! p = Some pd ∧ od = with_array pd (array od)
      | None => o = fresh (dom h)
                ∧ ndim od = ndim (shape_donor ld rd)
                ∧ dsize od = dsize (shape_donor ld rd)
                ∧ wcs od = wcs (shape_donor ld rd)
      end.
Proof.
  intros Hne Hl Hr Hwl Hwr Hfl Hfr Hacc.
  destruct (out_type_float ld rd Hfl Hfr) as [Hff [ct Hct]].
  unfold data_arithmetic_binary_function_f.
  rewrite (bind_Done _ _ _ _ _ (deref_live h l ld Hl)).
  rewrite (bind_Done _ _ _ _ _ (deref_live h r rd Hr)).
  rewrite (bind_Done _ _ _ _ _ (size_check_passes flags ld rd h Hacc)).
  rewrite (bind_Done _ _ _ _ _ (check_float_input_ok l _ _ h ld Hl Hfl)).
  rewrite (bind_Done _ _ _ _ _ (check_float_input_ok r _ _ h rd Hr Hfr)).
  fold (out_size_of ld rd). fold (shape_donor ld rd).
  destruct (inplace_output flags (gal_data_out_type ld rd) (out_size_of ld rd)
              l r ld rd) as [p|] eqn:Hio.
  - apply inplace_output_Some in Hio as [_ Hio].
    assert (∃ pd, h !! p = Some pd ∧ type pd = gal_data_out_type ld rd
                  ∧ size pd = out_size_of ld rd ∧ wf_data pd = true)
      as (pd & Hp & Htp & Hsp & Hwp).
    { destruct Hio as [(-> & ? & ?)|(-> & _ & ? & ?)]; eauto 10. }
    pose proof Hwp as (Hlen & _)%wf_data_spec.
    exists p, (with_array pd (paired ct (c_pow M) ld rd (out_size_of ld rd))), ct.
    split; [|by eauto 10].
    unfold bind at 1, ret at 1.
    apply (binary_tail M flags l r p h ld rd pd ct); try done; by rewrite Htp.
  - pose proof (shape_donor_size flags ld rd Hwl Hwr Hacc) as Hsd.
    assert (wf_data (shape_donor ld rd) = true) as Hwd
      by (unfold shape_donor; by destruct (1 <? size ld)%nat).
    set (o := fresh (dom h)).
    set (od := {| array := replicate (size (shape_donor ld rd)) Undef;
                  type := gal_data_out_type ld rd;
                  ndim := ndim (shape_donor ld rd);
                  dsize := dsize (shape_donor ld rd);
                  size := size (shape_donor ld rd);
                  wcs := wcs (shape_donor ld rd);
                  minmapsize := if (minmapsize ld <? minmapsize rd)%nat
                                then minmapsize ld else minmapsize rd |}).
    exists o, (with_array od (paired ct (c_pow M) ld rd (out_size_of ld rd))), ct.
    split; [|by repeat split].
    assert (gal_data_alloc (gal_data_out_type ld rd)
              (if (1 <? size ld)%nat then ndim ld else ndim rd)
              (if (1 <? size ld)%nat then dsize ld else dsize rd)
              (if (1 <? size ld)%nat then wcs ld else wcs rd) false
              (if (minmapsize ld <? minmapsize rd)%nat
               then minmapsize ld else minmapsize rd) h
            = Done o (<[o := od]> h)) as Halloc.
    { unfold o, od, shape_donor.
      destruct (1 <? size ld)%nat; by apply alloc_like. }
    rewrite (bind_Done _ _ _ _ _ Halloc).
    rewrite (binary_tail M flags l r o (<[o := od]> h) ld rd od ct); try done.
    + by rewrite insert_insert_eq.
    + rewrite lookup_insert_ne; [done|]. by apply not_eq_sym, (live_not_fresh h l ld).
    + rewrite lookup_insert_ne; [done|]. by apply not_eq_sym, (live_not_fresh h r rd).
    + by rewrite lookup_insert_eq.
    + simpl. by rewrite length_replicate.
Qed.

(** * What the functions guarantee *)

(** ** Change of type *)

(** C1 (code defect).  [data_arithmetic_change_type] asked for the [char]
    type, on the [int] dataset [1, 2, 3], returns a dataset whose type is
    [unsigned char]: the case of [GAL_DATA_OPERATOR_TO_CHAR] sets the type
    of [GAL_DATA_OPERATOR_TO_UCHAR]. *)
Lemma change_type_to_char_returns_uchar :
  type <$> returned
    (data_arithmetic_change_type 1%positive GAL_DATA_OPERATOR_TO_CHAR 0%N
       (heap_of [dataset GAL_DATA_TYPE_INT [3%nat] [Int 1; Int 2; Int 3]]))
  = Some GAL_DATA_TYPE_UCHAR.
Proof. vm_compute. reflexivity. Qed.

Lemma gal_data_copy_to_new_type_spec data t ct (h : heap) d :
  h !! data = Some d → wf_data d = true → c_type_of t = Some ct →
  gal_data_copy_to_new_type data t h
  = Done (fresh (dom h))
      (<[fresh (dom h) :=
           {| array := convert ct <$> array d; type := t; ndim := ndim d;
              dsize := dsize d; size := size d; wcs := wcs d;
              minmapsize := minmapsize d |}]> h).
Proof.
  intros Hd Hwf Hct. unfold gal_data_copy_to_new_type.
  rewrite (bind_Done _ _ _ _ _ (deref_live h data d Hd)), Hct.
  rewrite (bind_Done _ _ _ _ _ (alloc_like h d _ _ _ Hwf)).
  by rewrite lookup_insert_eq, insert_insert_eq.
Qed.

(** What holds of the type change.  Each of the ten other operators
    returns a new dataset of the type it is named after and of the shape of
    the input, every element converted. *)
Lemma change_type_of_other_operators data operator flags (h : heap) d t ct :
  h !! data = Some d → wf_data d = true →
  requested_type operator = Some t → operator ≠ GAL_DATA_OPERATOR_TO_CHAR →
  c_type_of t = Some ct →
  ∃ o h' od,
    data_arithmetic_change_type data operator flags h = Done o h'
    ∧ h !! o = None ∧ h' !! o = Some od
    ∧ type od = t ∧ shape od = shape d
    ∧ array od = convert ct <$> array d.
Proof.
  intros Hd Hwf Hreq Hop Hct.
  pose proof (live_not_fresh h data d Hd) as Hne.
  assert (∀ h0 : heap, h0 !! data = Some d →
    ((if flag_set flags GAL_DATA_ARITH_FREE then gal_data_free data else ret ()) ;;;
     ret (fresh (dom h))) h0
    = Done (fresh (dom h))
        (if flag_set flags GAL_DATA_ARITH_FREE then delete data h0 else h0))
    as Hfree.
  { intros h0 Hh0. unfold bind, gal_data_free, ret.
    destruct (flag_set flags GAL_DATA_ARITH_FREE); [by rewrite Hh0 | done]. }
  unfold data_arithmetic_change_type.
  destruct operator; try discriminate; try done; injection Hreq as <-;
    unfold bind at 1, ret at 1;
    rewrite (bind_Done _ _ _ _ _ (gal_data_copy_to_new_type_spec data _ ct h d Hd Hwf Hct));
    rewrite Hfree by (by rewrite lookup_insert_ne);
    (eexists _, _, _; split; [reflexivity|]; split; [apply fresh_not_live|];
     split; [output_live|done]).
Qed.

(** ** Logical negation *)

(** C5 (code defect).  [data_arithmetic_not] on the [short] dataset [0, 0]
    returns a dataset whose second element was never written: the end
    pointer of the loop stands two bytes after the start of the buffer,
    where the first increment of the [short] pointer already arrives. *)
Lemma not_short_leaves_second_element :
  array <$> returned
    (data_arithmetic_not 1%positive 0%N
       (heap_of [dataset GAL_DATA_TYPE_SHORT [2%nat] [Int 0; Int 0]]))
  = Some [Int 1; Undef].
Proof. vm_compute. reflexivity. Qed.

(** What holds of the negation.  On a well-formed input of a one-byte type
    ([unsigned char], [char], logical) it returns a new [unsigned char]
    dataset of the shape of the input, every element negated. *)
Lemma not_of_one_byte_type data flags (h : heap) d ct :
  h !! data = Some d → wf_data d = true →
  c_type_of (type d) = Some ct → sizeof ct = 1%nat →
  ∃ o h' od,
    data_arithmetic_not data flags h = Done o h'
    ∧ h !! o = None ∧ h' !! o = Some od
    ∧ type od = GAL_DATA_TYPE_UCHAR ∧ shape od = shape d
    ∧ array od = (λ x, convert c_unsigned_char (c_not x)) <$> array d.
Proof.
  intros Hd Hwf Hct Hone.
  pose proof Hwf as (Hlen & _ & _ & Hpos)%wf_data_spec.
  pose proof (live_not_fresh h data d Hd) as Hne.
  rewrite (data_arithmetic_not_spec data flags h d ct) by done. simpl.
  rewrite Hone, turns_one by done.
  eexists _, _, _. split; [reflexivity|]. split; [apply fresh_not_live|].
  split; [output_live|].
  split; [done|]. split; [done|]. simpl.
  by rewrite <- Hlen, firstn_all, Nat.sub_diag, app_nil_r.
Qed.

(** The negation of a value that is there is 1 or 0. *)
Lemma negation_value x :
  x ≠ Undef → convert c_unsigned_char (c_not x) = Int (if is_zero x then 1 else 0).
Proof.
  intros Hx. destruct x as [|z|f]; [done| |]; simpl.
  - by destruct (z =? 0).
  - by destruct (SFeqb f (S754_zero false)).
Qed.

(** On a well-formed input of a wider type with more than one element, the
    last element of the output is never written. *)
Lemma not_of_wider_type data flags (h : heap) d ct :
  h !! data = Some d → wf_data d = true →
  c_type_of (type d) = Some ct → (1 < sizeof ct)%nat → (1 < size d)%nat →
  ∃ o h' od,
    data_arithmetic_not data flags h = Done o h'
    ∧ h' !! o = Some od ∧ array od !! (size d - 1)%nat = Some Undef.
Proof.
  intros Hd Hwf Hct Hwide Hmany.
  pose proof Hwf as (Hlen & _ & _ & Hpos)%wf_data_spec.
  pose proof (live_not_fresh h data d Hd) as Hne.
  rewrite (data_arithmetic_not_spec data flags h d ct) by done. simpl.
  eexists _, _, _. split; [reflexivity|].
  split; [output_live|].
  simpl.
  assert (turns (sizeof ct) (size d) < size d)%nat as Hlt.
  { unfold turns.
    pose proof (Nat.Div0.mul_div_le (size d - 1) (sizeof ct)).
    assert (2 * ((size d - 1) / sizeof ct) ≤ sizeof ct * ((size d - 1) / sizeof ct))%nat
      by (apply Nat.mul_le_mono_r; lia).
    lia. }
  rewrite lookup_app_r; rewrite length_fmap, length_take; [|lia].
  apply lookup_replicate_2. lia.
Qed.

(** On a bit input it exits with the error for the unsupported type. *)
Lemma not_of_bit_type data flags (h : heap) d :
  h !! data = Some d → type d = GAL_DATA_TYPE_BIT →
  ∃ h', data_arithmetic_not data flags h = Exit BitTypeNotSupported h'
        ∧ kind_of BitTypeNotSupported = UnsupportedKind.
Proof.
  intros Hd Ht. unfold data_arithmetic_not.
  rewrite (bind_Done _ _ _ _ _ (deref_live h data d Hd)).
  unfold bind at 1, gal_data_alloc. rewrite Ht. by eexists.
Qed.

(** ** Where *)

(** C3 (code defect).  [data_arithmetic_where] on the [int] output
    [1, 1, 1], the condition [1, 0, 1] and the [int] values [9, 9, 9] leaves
    [9, 1, 1]: the end pointer of the loop stands three bytes after the
    start of the output buffer, where the first increment of the [int]
    pointer has already passed. *)
Lemma where_int_stops_after_first_element :
  (λ h : heap, array <$> h !! 1%positive) <$> heap_after
    (data_arithmetic_where GAL_DATA_OPERATOR_POW 0%N 1%positive 2%positive 3%positive
       (heap_of [dataset GAL_DATA_TYPE_INT [3%nat] [Int 1; Int 1; Int 1];
                 dataset GAL_DATA_TYPE_UCHAR [3%nat] [Int 1; Int 0; Int 1];
                 dataset GAL_DATA_TYPE_INT [3%nat] [Int 9; Int 9; Int 9]]))
  = Some (Some [Int 9; Int 1; Int 1]).
Proof. vm_compute. reflexivity. Qed.

Lemma dsize_is_different_iff a b :
  gal_data_dsize_is_different a b = true ↔ ndim a ≠ ndim b ∨ dsize a ≠ dsize b.
Proof.
  unfold gal_data_dsize_is_different.
  rewrite negb_true_iff, bool_decide_eq_false.
  destruct (decide (ndim a = ndim b)), (decide (dsize a = dsize b)); tauto.
Qed.

(** What holds of [where].  On a well-formed output of a one-byte type, with
    a condition of the [unsigned char] type and of the shape of the output,
    and values as many as the output or a single one, every element of the
    output is the value (the only one, when there is a single one) where the
    condition is not zero and its former content where it is zero, each
    converted to the common type and back to the type of the output. *)
Lemma where_on_one_byte_output operator flags out cond iftrue (h : heap)
    od cd id ITT OT :
  h !! out = Some od → h !! cond = Some cd → h !! iftrue = Some id →
  out ≠ cond → out ≠ iftrue → cond ≠ iftrue →
  wf_data od = true → wf_data cd = true → wf_data id = true →
  type cd = GAL_DATA_TYPE_UCHAR → shape od = shape cd →
  where_c_type (type od) = Some OT → where_c_type (type id) = Some ITT →
  size id = size od ∨ size id = 1%nat →
  sizeof OT = 1%nat →
  ∃ h' od',
    data_arithmetic_where operator flags out cond iftrue h = Done tt h'
    ∧ h' !! out = Some od'
    ∧ type od' = type od ∧ shape od' = shape od
    ∧ ∀ i, (i < size od)%nat →
           array od' !! i = Some (where_element ITT OT od cd id i).
Proof.
  intros Ho Hc Hi Hnc Hni Hci Hwo Hwc Hwi Htc Hshape Hot Hitt Hsz Hone.
  pose proof Hwo as (Hlo & _ & _ & Hpo)%wf_data_spec.
  assert (gal_data_dsize_is_different od cd = false) as Hsame.
  { apply not_true_iff_false. rewrite dsize_is_different_iff.
    injection Hshape as -> ->. tauto. }
  rewrite (data_arithmetic_where_spec operator flags out cond iftrue h od cd id ITT OT)
    by done.
  rewrite Hone, turns_one by done.
  eexists _, _. split; [reflexivity|].
  split.
  { unfold where_cleanup. output_live. }
  split; [done|]. split; [done|].
  intros i Hlt. simpl. rewrite <- Hlo, filled_all, Hlo.
  by rewrite list_lookup_fmap, lookup_seq_lt.
Qed.

(** Where the condition is zero, an [int] output read against [float] values
    goes through [float] and back: 16777217 comes out as 16777216. *)
Lemma where_rounds_kept_element :
  (λ h : heap, array <$> h !! 1%positive) <$> heap_after
    (data_arithmetic_where GAL_DATA_OPERATOR_POW 0%N 1%positive 2%positive 3%positive
       (heap_of [dataset GAL_DATA_TYPE_INT [1%nat] [Int 16777217];
                 dataset GAL_DATA_TYPE_UCHAR [1%nat] [Int 0];
                 dataset GAL_DATA_TYPE_FLOAT [1%nat] [f32 1]]))
  = Some (Some [Int 16777216]).
Proof. vm_compute. reflexivity. Qed.

(** C7.  When the condition of [where] is not of the [unsigned char] type
    (the type of truth values), or its shape is not exactly the shape of
    the output, [data_arithmetic_where] exits through [error] before its
    loop, with the type error in the first case and the size error (a shape
    mismatch) otherwise, and the heap is the one it was called in: no
    element of any dataset is changed and no dataset is freed. *)
Theorem where_rejects_condition_before_loop
    operator flags out cond iftrue (h : heap) od cd :
  h !! out = Some od → h !! cond = Some cd →
  type cd ≠ GAL_DATA_TYPE_UCHAR ∨ ndim od ≠ ndim cd ∨ dsize od ≠ dsize cd →
  ∃ e, data_arithmetic_where operator flags out cond iftrue h = Exit e h
       ∧ (type cd ≠ GAL_DATA_TYPE_UCHAR →
          e = ConditionNotUchar (type cd) ∧ kind_of e = TypeMismatch)
       ∧ (type cd = GAL_DATA_TYPE_UCHAR →
          e = ConditionDifferentSize ∧ kind_of e = ShapeMismatch).
Proof.
  intros Hout Hcond Hbad. unfold data_arithmetic_where.
  rewrite (bind_Done _ _ _ _ _ (deref_live h cond cd Hcond)).
  destruct (decide (type cd = GAL_DATA_TYPE_UCHAR)) as [Ht|Ht].
  - assert (gal_data_dsize_is_different od cd = true) as Hdiff.
    { apply dsize_is_different_iff. tauto. }
    exists ConditionDifferentSize. split; [|by split].
    rewrite bool_decide_eq_true_2 by done. simpl.
    unfold bind at 1, ret at 1.
    rewrite (bind_Done _ _ _ _ _ (deref_live h out od Hout)).
    unfold bind at 1. by rewrite Hdiff.
  - exists (ConditionNotUchar (type cd)). split; [|by split].
    rewrite bool_decide_eq_false_2 by done. done.
Qed.

Lemma where_rejects_condition_before_loop_witness :
  data_arithmetic_where GAL_DATA_OPERATOR_POW 2%N 1%positive 2%positive 3%positive
    (heap_of [ints_3; dataset GAL_DATA_TYPE_UCHAR [1%nat] [Int 1]; ints_3])
  = Exit ConditionDifferentSize
      (heap_of [ints_3; dataset GAL_DATA_TYPE_UCHAR [1%nat] [Int 1]; ints_3]).
Proof.
  destruct (where_rejects_condition_before_loop GAL_DATA_OPERATOR_POW 2%N
              1%positive 2%positive 3%positive
              (heap_of [ints_3; dataset GAL_DATA_TYPE_UCHAR [1%nat] [Int 1]; ints_3])
              ints_3 (dataset GAL_DATA_TYPE_UCHAR [1%nat] [Int 1]))
    as (e & Hrun & _ & Hsize).
  - reflexivity.
  - reflexivity.
  - right. right. simpl. discriminate.
  - destruct (Hsize eq_refl) as [-> _]. exact Hrun.
Defined.

(** ** Unary functions: types, shapes and buffers *)

(** C8.  On an input that is neither [float] nor [double] the unary
    function exits through the type error of [check_float_input], which
    carries the operator and the type of the input, and leaves the heap as
    it found it: the input is not converted.  On a well-formed [float] or
    [double] input, with [sqrt], [log] or [log10], it returns a dataset of
    the type and the shape of the input. *)
Theorem unary_function_f_float_only M operator flags inp (h : heap) d :
  h !! inp = Some d →
  (is_float_type (type d) = false →
   data_arithmetic_unary_function_f M operator flags inp h
   = Exit (NotFloatOperand operator "first" (type d)) h
   ∧ kind_of (NotFloatOperand operator "first" (type d)) = TypeMismatch)
  ∧ (is_float_type (type d) = true → wf_data d = true →
     is_Some (unary_op M operator) →
     ∃ o h' od,
       data_arithmetic_unary_function_f M operator flags inp h = Done o h'
       ∧ h' !! o = Some od
       ∧ type od = type d ∧ ndim od = ndim d ∧ dsize od = dsize d).
Proof.
  intros Hin. split.
  - intros Hnf. split; [|done].
    unfold data_arithmetic_unary_function_f.
    by rewrite (bind_Exit _ _ _ _ _ (check_float_input_fails inp _ _ h d Hin Hnf)).
  - intros Hf Hwf [OP Hop].
    assert (∃ ct, c_type_of (type d) = Some ct) as [ct Hct]
      by (destruct (type d); try discriminate; eauto).
    destruct (flag_set flags GAL_DATA_ARITH_INPLACE) eqn:Hflag.
    + rewrite (unary_function_f_inplace M operator OP flags inp h d ct) by done.
      eexists _, _, _. split; [reflexivity|].
      split; [apply lookup_insert_eq|done].
    + rewrite (unary_function_f_alloc M operator OP flags inp h d ct) by done.
      simpl. eexists _, _, _. split; [reflexivity|].
      pose proof (live_not_fresh h inp d Hin).
      split; [output_live|done].
Qed.

Lemma unary_function_f_float_only_witness :
  data_arithmetic_unary_function_f sample_libm GAL_DATA_OPERATOR_SQRT 0%N 1%positive
    (heap_of [ints_3])
  = Exit (NotFloatOperand GAL_DATA_OPERATOR_SQRT "first" GAL_DATA_TYPE_INT)
      (heap_of [ints_3])
  ∧ ∃ o h' od,
      data_arithmetic_unary_function_f sample_libm GAL_DATA_OPERATOR_SQRT 0%N 1%positive
        (heap_of [squares_2])
      = Done o h'
      ∧ h' !! o = Some od
      ∧ type od = GAL_DATA_TYPE_FLOAT ∧ ndim od = 1%nat ∧ dsize od = [2%nat].
Proof.
  split.
  - apply (unary_function_f_float_only sample_libm GAL_DATA_OPERATOR_SQRT 0%N
             1%positive (heap_of [ints_3]) ints_3); reflexivity.
  - apply (unary_function_f_float_only sample_libm GAL_DATA_OPERATOR_SQRT 0%N
             1%positive (heap_of [squares_2]) squares_2); try reflexivity.
    eexists. reflexivity.
Defined.

(** C9.  On a well-formed [float] or [double] input, with [sqrt], [log] or
    [log10]: when the in-place flag is set the function returns its input,
    the live datasets are the same as before (nothing was allocated and,
    whatever the free flag, nothing was freed), and the buffer of the input
    holds the results; when the in-place flag is not set and the free flag
    is, the function returns a dataset that was not live before, whose
    buffer holds the result for every element of the input, and the input
    is no longer live (a freed dataset cannot be read, [load_after_free], so
    every element was read before the input was freed). *)
Theorem unary_function_f_inplace_and_free M operator OP flags inp (h : heap) d ct :
  h !! inp = Some d → wf_data d = true →
  is_float_type (type d) = true → c_type_of (type d) = Some ct →
  unary_op M operator = Some OP →
  (flag_set flags GAL_DATA_ARITH_INPLACE = true →
   ∃ h', data_arithmetic_unary_function_f M operator flags inp h = Done inp h'
         ∧ dom h' = dom h
         ∧ h' !! inp
           = Some (with_array d ((λ x, convert ct (call1 OP x)) <$> array d)))
  ∧ (flag_set flags GAL_DATA_ARITH_INPLACE = false →
     flag_set flags GAL_DATA_ARITH_FREE = true →
     ∃ o h', data_arithmetic_unary_function_f M operator flags inp h = Done o h'
             ∧ h !! o = None
             ∧ h' !! o
               = Some (with_array d ((λ x, convert ct (call1 OP x)) <$> array d))
             ∧ h' !! inp = None).
Proof.
  intros Hin Hwf Hf Hct Hop. split.
  - intros Hflag.
    rewrite (unary_function_f_inplace M operator OP flags inp h d ct) by done.
    eexists. split; [done|]. split; [|by rewrite lookup_insert_eq].
    apply dom_insert_lookup_L. by rewrite Hin.
  - intros Hflag Hfree.
    rewrite (unary_function_f_alloc M operator OP flags inp h d ct) by done.
    simpl. rewrite Hfree. eexists _, _. split; [done|].
    pose proof (live_not_fresh h inp d Hin).
    split; [apply fresh_not_live|]. split.
    + rewrite lookup_delete_ne by done. by rewrite lookup_insert_eq.
    + by rewrite lookup_delete_eq.
Qed.

Lemma unary_function_f_inplace_and_free_witness :
  (∃ h', data_arithmetic_unary_function_f sample_libm GAL_DATA_OPERATOR_SQRT 3%N
           1%positive (heap_of [squares_2])
         = Done 1%positive h'
         ∧ dom h' = dom (heap_of [squares_2])
         ∧ h' !! 1%positive
           = Some (with_array squares_2
                     ((λ x, convert c_float (call1 (SFsqrt 53 1024) x))
                      <$> array squares_2)))
  ∧ (∃ o h', data_arithmetic_unary_function_f sample_libm GAL_DATA_OPERATOR_SQRT 2%N
               1%positive (heap_of [squares_2])
             = Done o h'
             ∧ heap_of [squares_2] !! o = None
             ∧ h' !! o
               = Some (with_array squares_2
                         ((λ x, convert c_float (call1 (SFsqrt 53 1024) x))
                          <$> array squares_2))
             ∧ h' !! 1%positive = None).
Proof.
  split.
  - apply (unary_function_f_inplace_and_free sample_libm GAL_DATA_OPERATOR_SQRT
             (SFsqrt 53 1024) 3%N 1%positive (heap_of [squares_2]) squares_2 c_float);
      reflexivity.
  - apply (unary_function_f_inplace_and_free sample_libm GAL_DATA_OPERATOR_SQRT
             (SFsqrt 53 1024) 2%N 1%positive (heap_of [squares_2]) squares_2 c_float);
      reflexivity.
Defined.

(** ** Binary function: size check, output and reuse *)

Lemma binary_accepts_iff flags ld rd :
  binary_accepts flags ld rd = true ↔ accepted flags ld rd.
Proof.
  unfold binary_accepts, accepted, shape, gal_data_dsize_is_different.
  rewrite orb_true_iff, andb_true_iff, orb_true_iff, !Nat.eqb_eq, negb_involutive,
    bool_decide_eq_true.
  split; (intros [?|Hs]; [by left|right]).
  - destruct Hs as [-> ->]. done.
  - by injection Hs.
Qed.

Lemma binary_rejects_iff flags ld rd :
  binary_accepts flags ld rd = false ↔ ¬ accepted flags ld rd.
Proof. rewrite <- binary_accepts_iff. by destruct (binary_accepts flags ld rd). Qed.

Lemma accepted_same_shape flags ld rd :
  binary_accepts flags ld rd = true →
  (1 < size ld)%nat → (1 < size rd)%nat → shape ld = shape rd.
Proof.
  intros [[_ [?|?]]|?]%binary_accepts_iff ??; [lia | lia | done].
Qed.

(** The shape of the output, from the way the output was chosen. *)
Lemma output_shape flags l r (h : heap) ld rd o od :
  l ≠ r → h !! l = Some ld → h !! r = Some rd →
  wf_data ld = true → wf_data rd = true →
  binary_accepts flags ld rd = true →
  match inplace_output flags (gal_data_out_type ld rd) (out_size_of ld rd)
          l r ld rd with
  | Some p => o = p ∧ ∃ pd, h !! p = Some pd ∧ od = with_array pd (array od)
  | None => o = fresh (dom h)
            ∧ ndim od = ndim (shape_donor ld rd)
            ∧ dsize od = dsize (shape_donor ld rd)
            ∧ wcs od = wcs (shape_donor ld rd)
  end →
  ((1 < size ld)%nat → shape od = shape ld)
  ∧ ((1 < size rd)%nat → shape od = shape rd)
  ∧ (size ld = 1%nat → size rd = 1%nat →
     shape od
     = if flag_set flags GAL_DATA_ARITH_INPLACE
          && bool_decide (type ld = gal_data_out_type ld rd)
       then shape ld else shape rd).
Proof.
  intros Hne Hl Hr Hwl Hwr Hacc Hout.
  pose proof (accepted_same_shape flags ld rd Hacc) as Hsame.
  pose proof (accepted_sizes flags ld rd Hwl Hwr Hacc) as Hsizes.
  destruct (inplace_output _ _ _ _ _ _ _) as [p|] eqn:Hio.
  - destruct Hout as (-> & pd & Hp & Hod).
    assert (shape od = shape pd) as -> by (by rewrite Hod).
    apply inplace_output_Some in Hio as [Hflag Hio]. rewrite Hflag. simpl.
    unfold out_size_of in Hio.
    destruct Hio as [(-> & Ht & Hn)|(-> & Hnl & Ht & Hn)].
    + assert (pd = ld) as -> by congruence.
      rewrite bool_decide_eq_true_2 by done.
      split; [done|]. split; [|done].
      intros ?. apply Hsame; [|done].
      sizes.
    + assert (pd = rd) as -> by congruence.
      split; [|split; [done|]].
      * intros ?. symmetry. apply Hsame; [done|].
        sizes.
      * intros Hl1 Hr1. case_bool_decide; [|done].
        exfalso. apply Hnl. split; [done|].
        sizes.
  - destruct Hout as (_ & Hnd & Hds & _).
    assert (shape od = shape (shape_donor ld rd)) as ->
      by (unfold shape; by rewrite Hnd, Hds).
    unfold shape_donor. split; [|split].
    + intros ?. by destruct (Nat.ltb_spec 1 (size ld)); [|lia].
    + intros ?. destruct (Nat.ltb_spec 1 (size ld)); [|done]. by apply Hsame.
    + intros Hl1 Hr1. destruct (Nat.ltb_spec 1 (size ld)); [lia|].
      apply inplace_output_None in Hio as [->|[Hnl _]]; [done|].
      case_bool_decide; [|by rewrite andb_false_r].
      exfalso. apply Hnl. split; [done|]. unfold out_size_of.
      sizes.
Qed.

Lemma paired_lookup ct OP ld rd n i :
  (i < n)%nat →
  paired ct OP ld rd n !! i
  = Some (convert ct (call2 OP (element ld (left_index ld rd i))
                               (element rd (right_index ld rd i)))).
Proof.
  intros Hi. unfold paired. by rewrite list_lookup_fmap, lookup_seq_lt.
Qed.

Lemma paired_length ct OP ld rd n : length (paired ct OP ld rd n) = n.
Proof. unfold paired. by rewrite length_fmap, length_seq. Qed.

Lemma out_type_wider ld rd :
  is_float_type (type ld) = true → is_float_type (type rd) = true →
  gal_data_out_type ld rd
  = if bool_decide (type ld = GAL_DATA_TYPE_DOUBLE ∨ type rd = GAL_DATA_TYPE_DOUBLE)
    then GAL_DATA_TYPE_DOUBLE else GAL_DATA_TYPE_FLOAT.
Proof.
  intros Hl Hr. unfold gal_data_out_type.
  case_decide as Hd.
  - by rewrite bool_decide_eq_true_2.
  - rewrite bool_decide_eq_false_2 by done.
    destruct (type ld); try discriminate; [done|]. exfalso. auto.
Qed.

Lemma binary_function_f_rejects M operator flags l r (h : heap) ld rd :
  h !! l = Some ld → h !! r = Some rd → ¬ accepted flags ld rd →
  data_arithmetic_binary_function_f M operator flags l r h
  = Exit InputsDifferentSize h.
Proof.
  intros Hl Hr Hrej%binary_rejects_iff. unfold data_arithmetic_binary_function_f.
  rewrite (bind_Done _ _ _ _ _ (deref_live h l ld Hl)).
  rewrite (bind_Done _ _ _ _ _ (deref_live h r rd Hr)).
  by rewrite (bind_Exit _ _ _ _ _ (size_check_fails flags ld rd h Hrej)).
Qed.

(** C2 (counterexample).  Two [float] operands of one element each, the
    left of shape (1), the right of shape (1, 1), passed with the number-OK
    flag and without the in-place flag: whatever the mathematical library,
    the output does not have the shape of the left operand (it has the
    shape of the right one). *)
Lemma binary_function_f_two_numbers_not_left_shape :
  ¬ ∃ M, dsize <$> returned
           (data_arithmetic_binary_function_f M GAL_DATA_OPERATOR_POW
              GAL_DATA_ARITH_NUMOK 1%positive 2%positive
              (heap_of [dataset GAL_DATA_TYPE_FLOAT [1%nat] [f32 2];
                        dataset GAL_DATA_TYPE_FLOAT [1%nat; 1%nat] [f32 3]]))
         = Some [1%nat].
Proof. intros [M HM]. vm_compute in HM. discriminate. Qed.

(** C2 (amended).  For two distinct well-formed [float] or [double]
    operands that pass the size check, [pow] returns a dataset whose type
    is [double] if either operand is [double] and [float] otherwise, and
    whose shape is the shape of an operand with more than one element;
    when both operands have one element, it is the shape of the left
    operand if the left operand itself is returned (the in-place flag is
    set and its type is the output type) and the shape of the right operand
    otherwise. *)
Theorem binary_function_f_type_and_shape M flags l r (h : heap) ld rd :
  l ≠ r → h !! l = Some ld → h !! r = Some rd →
  wf_data ld = true → wf_data rd = true →
  is_float_type (type ld) = true → is_float_type (type rd) = true →
  accepted flags ld rd →
  ∃ o h' od,
    data_arithmetic_binary_function_f M GAL_DATA_OPERATOR_POW flags l r h = Done o h'
    ∧ h' !! o = Some od
    ∧ type od
      = (if bool_decide (type ld = GAL_DATA_TYPE_DOUBLE ∨ type rd = GAL_DATA_TYPE_DOUBLE)
         then GAL_DATA_TYPE_DOUBLE else GAL_DATA_TYPE_FLOAT)
    ∧ ((1 < size ld)%nat → shape od = shape ld)
    ∧ ((1 < size rd)%nat → shape od = shape rd)
    ∧ (size ld = 1%nat → size rd = 1%nat →
       shape od
       = if flag_set flags GAL_DATA_ARITH_INPLACE && bool_decide (type ld = type od)
         then shape ld else shape rd).
Proof.
  intros Hne Hl Hr Hwl Hwr Hfl Hfr Hacc%binary_accepts_iff.
  destruct (binary_function_f_spec M flags l r h ld rd)
    as (o & od & ct & Hrun & Hct & Harr & Htype & Hsize & Hout); try done.
  exists o, (binary_cleanup flags l r o (<[o := od]> h)), od.
  split; [done|].
  split; [by rewrite binary_cleanup_lookup, lookup_insert_eq|].
  split; [by rewrite Htype, out_type_wider|].
  rewrite Htype. by apply (output_shape flags l r h ld rd o od).
Qed.

Lemma binary_function_f_type_and_shape_witness :
  ∃ o h' od,
    data_arithmetic_binary_function_f sample_libm GAL_DATA_OPERATOR_POW 5%N
      1%positive 2%positive (heap_of [number_2; squares_3])
    = Done o h'
    ∧ h' !! o = Some od
    ∧ type od = GAL_DATA_TYPE_DOUBLE ∧ shape od = (1%nat, [3%nat]).
Proof.
  destruct (binary_function_f_type_and_shape sample_libm 5%N 1%positive 2%positive
              (heap_of [number_2; squares_3]) number_2 squares_3)
    as (o & h' & od & Hrun & Ho & Htype & _ & Hshape & _); try reflexivity.
  - discriminate.
  - left. split; [reflexivity|]. left. reflexivity.
  - exists o, h', od. split; [exact Hrun|]. split; [exact Ho|].
    split; [exact Htype|]. apply Hshape. simpl. lia.
Defined.

(** C6.  For two distinct well-formed [float] or [double] operands that
    pass the size check, with the in-place flag set: the left operand is
    returned exactly when its type is the output type and its size the
    output size; the right operand is returned exactly when the left does
    not qualify and the right does; and when neither qualifies the dataset
    returned was not live before the call. *)
Theorem binary_function_f_inplace_reuse M flags l r (h : heap) ld rd :
  l ≠ r → h !! l = Some ld → h !! r = Some rd →
  wf_data ld = true → wf_data rd = true →
  is_float_type (type ld) = true → is_float_type (type rd) = true →
  accepted flags ld rd →
  flag_set flags GAL_DATA_ARITH_INPLACE = true →
  let left_fits :=
    type ld = gal_data_out_type ld rd ∧ size ld = out_size_of ld rd in
  let right_fits :=
    type rd = gal_data_out_type ld rd ∧ size rd = out_size_of ld rd in
  ∃ o h',
    data_arithmetic_binary_function_f M GAL_DATA_OPERATOR_POW flags l r h = Done o h'
    ∧ is_Some (h' !! o)
    ∧ (o = l ↔ left_fits)
    ∧ (o = r ↔ ¬ left_fits ∧ right_fits)
    ∧ (h !! o = None ↔ ¬ left_fits ∧ ¬ right_fits).
Proof.
  intros Hne Hl Hr Hwl Hwr Hfl Hfr Hacc%binary_accepts_iff Hflag left_fits right_fits.
  destruct (binary_function_f_spec M flags l r h ld rd)
    as (o & od & ct & Hrun & Hct & Harr & Htype & Hsize & Hout); try done.
  exists o, (binary_cleanup flags l r o (<[o := od]> h)).
  split; [done|].
  split; [by rewrite binary_cleanup_lookup, lookup_insert_eq|].
  unfold left_fits, right_fits. clear left_fits right_fits.
  pose proof (live_not_fresh h l ld Hl) as Hnfl.
  pose proof (live_not_fresh h r rd Hr) as Hnfr.
  pose proof (fresh_not_live h) as Hfresh.
  destruct (inplace_output _ _ _ _ _ _ _) as [p|] eqn:Hio.
  - destruct Hout as (-> & pd & Hp & _).
    apply inplace_output_Some in Hio as [_ [(-> & Ht & Hn)|(-> & Hnl & Ht & Hn)]].
    + assert (h !! l ≠ None) by congruence.
      assert (type ld = gal_data_out_type ld rd ∧ size ld = out_size_of ld rd)
        by done.
      repeat split; intros; try done; try tauto; try congruence.
    + assert (h !! r ≠ None) by congruence.
      assert (¬ (type ld = gal_data_out_type ld rd ∧ size ld = out_size_of ld rd))
        by (intros [??]; apply Hnl; by split).
      assert (type rd = gal_data_out_type ld rd ∧ size rd = out_size_of ld rd)
        by done.
      repeat split; intros; try done; try tauto; try congruence.
  - destruct Hout as (-> & _).
    apply inplace_output_None in Hio as [Hio|[Hnl Hnr]]; [congruence|].
    assert (¬ (type ld = gal_data_out_type ld rd ∧ size ld = out_size_of ld rd))
      by (intros [??]; apply Hnl; by split).
    assert (¬ (type rd = gal_data_out_type ld rd ∧ size rd = out_size_of ld rd))
      by (intros [??]; apply Hnr; by split).
    repeat split; intros; try done; try tauto; try congruence.
Qed.

Lemma binary_function_f_inplace_reuse_witness :
  ∃ h',
    data_arithmetic_binary_function_f sample_libm GAL_DATA_OPERATOR_POW 5%N
      1%positive 2%positive (heap_of [number_2; squares_3])
    = Done 2%positive h'.
Proof.
  destruct (binary_function_f_inplace_reuse sample_libm 5%N 1%positive 2%positive
              (heap_of [number_2; squares_3]) number_2 squares_3)
    as (o & h' & Hrun & _ & _ & Hright & _); try reflexivity.
  - discriminate.
  - left. split; [reflexivity|]. left. reflexivity.
  - assert (o = 2%positive) as Ho.
    { apply Hright. split; [intros [E _]; discriminate E|]. split; reflexivity. }
    exists h'. rewrite Ho in Hrun. exact Hrun.
Defined.

Lemma paired_pairs_with OP ct ld rd od n i :
  array od = paired ct OP ld rd n → (i < n)%nat →
  (left_index ld rd i < length (array ld))%nat →
  (right_index ld rd i < length (array rd))%nat →
  pairs_with OP ct ld rd od i (left_index ld rd i) (right_index ld rd i).
Proof.
  intros Harr Hi Hli Hri.
  exists (element ld (left_index ld rd i)), (element rd (right_index ld rd i)).
  split; [by apply element_lookup|]. split; [by apply element_lookup|].
  rewrite Harr. by apply paired_lookup.
Qed.

(** C4 (counterexample).  A [float] operand of shape (1) against a [float]
    operand of shape (5), passed without the number-OK flag: whatever the
    mathematical library, the function does not return. *)
Lemma binary_function_f_number_needs_flag :
  ¬ ∃ M o h',
      data_arithmetic_binary_function_f M GAL_DATA_OPERATOR_POW 0%N
        1%positive 2%positive
        (heap_of [dataset GAL_DATA_TYPE_FLOAT [1%nat] [f32 2];
                  dataset GAL_DATA_TYPE_FLOAT [5%nat]
                    [f32 1; f32 2; f32 3; f32 4; f32 5]])
      = Done o h'.
Proof. intros (M & o & h' & HM). vm_compute in HM. discriminate. Qed.

(** C4 (amended).  For two distinct well-formed [float] or [double]
    operands, [pow] returns exactly when the operands have the same shape,
    or the number-OK flag is set and one operand has a single element;
    otherwise it exits with the size error (a shape mismatch) and leaves the
    heap as it was.  When it returns, the output has as many elements as
    the larger operand and the shape of an operand with more than one
    element; its elements pair the elements of the operands one to one when
    the sizes are equal, and pair the only element of a one-element operand
    with every element of the other when they are not. *)
Theorem binary_function_f_broadcast M flags l r (h : heap) ld rd :
  l ≠ r → h !! l = Some ld → h !! r = Some rd →
  wf_data ld = true → wf_data rd = true →
  is_float_type (type ld) = true → is_float_type (type rd) = true →
  (¬ accepted flags ld rd →
   data_arithmetic_binary_function_f M GAL_DATA_OPERATOR_POW flags l r h
   = Exit InputsDifferentSize h
   ∧ kind_of InputsDifferentSize = ShapeMismatch)
  ∧ (accepted flags ld rd →
     ∃ o h' od ct,
       data_arithmetic_binary_function_f M GAL_DATA_OPERATOR_POW flags l r h
       = Done o h'
       ∧ h' !! o = Some od ∧ c_type_of (type od) = Some ct
       ∧ size od = Nat.max (size ld) (size rd) ∧ length (array od) = size od
       ∧ ((1 < size ld)%nat → shape od = shape ld)
       ∧ ((1 < size rd)%nat → shape od = shape rd)
       ∧ (size ld = size rd →
          ∀ i, (i < size od)%nat → pairs_with (c_pow M) ct ld rd od i i i)
       ∧ (size ld = 1%nat → size rd ≠ 1%nat →
          ∀ i, (i < size od)%nat → pairs_with (c_pow M) ct ld rd od i 0 i)
       ∧ (size rd = 1%nat → size ld ≠ 1%nat →
          ∀ i, (i < size od)%nat → pairs_with (c_pow M) ct ld rd od i i 0)).
Proof.
  intros Hne Hl Hr Hwl Hwr Hfl Hfr. split.
  - intros Hrej. split; [|done]. by apply (binary_function_f_rejects M _ _ _ _ _ ld rd).
  - intros Hacc%binary_accepts_iff.
    destruct (binary_function_f_spec M flags l r h ld rd)
      as (o & od & ct & Hrun & Hct & Harr & Htype & Hsize & Hout); try done.
    pose proof (output_shape flags l r h ld rd o od Hne Hl Hr Hwl Hwr Hacc Hout)
      as (Hsl & Hsr & _).
    pose proof (accepted_sizes flags ld rd Hwl Hwr Hacc) as Hsizes.
    pose proof Hwl as (Hll & _ & _ & Hpl)%wf_data_spec.
    pose proof Hwr as (Hlr & _ & _ & Hpr)%wf_data_spec.
    assert (out_size_of ld rd = Nat.max (size ld) (size rd)) as Hmax.
    { sizes. }
    assert (∀ i, (i < size od)%nat →
              pairs_with (c_pow M) ct ld rd od i
                (left_index ld rd i) (right_index ld rd i)) as Hpairs.
    { intros i Hi. apply (paired_pairs_with _ _ _ _ _ (out_size_of ld rd)); [done|lia|..];
        unfold left_index, right_index;
        destruct (Nat.eqb_spec (size ld) (size rd)), (Nat.eqb_spec (size ld) 1); lia. }
    exists o, (binary_cleanup flags l r o (<[o := od]> h)), od, ct.
    split; [done|].
    split; [by rewrite binary_cleanup_lookup, lookup_insert_eq|].
    split; [by rewrite Htype|]. split; [lia|].
    split; [by rewrite Harr, paired_length|].
    split; [done|]. split; [done|].
    split; [|split].
    + intros Heq i Hi. specialize (Hpairs i Hi).
      unfold left_index, right_index in Hpairs.
      by destruct (Nat.eqb_spec (size ld) (size rd)).
    + intros Hl1 Hr1 i Hi. specialize (Hpairs i Hi).
      unfold left_index, right_index in Hpairs.
      destruct (Nat.eqb_spec (size ld) (size rd)); [lia|].
      by destruct (Nat.eqb_spec (size ld) 1).
    + intros Hr1 Hl1 i Hi. specialize (Hpairs i Hi).
      unfold left_index, right_index in Hpairs.
      destruct (Nat.eqb_spec (size ld) (size rd)); [lia|].
      by destruct (Nat.eqb_spec (size ld) 1).
Qed.

Lemma binary_function_f_broadcast_witness :
  ∃ o h' od,
    data_arithmetic_binary_function_f sample_libm GAL_DATA_OPERATOR_POW
      GAL_DATA_ARITH_NUMOK 1%positive 2%positive (heap_of [number_2; ramp_5])
    = Done o h'
    ∧ h' !! o = Some od ∧ shape od = (1%nat, [5%nat]) ∧ size od = 5%nat.
Proof.
  destruct (binary_function_f_broadcast sample_libm GAL_DATA_ARITH_NUMOK
              1%positive 2%positive (heap_of [number_2; ramp_5]) number_2 ramp_5)
    as [_ Hok]; try reflexivity.
  - discriminate.
  - destruct Hok as (o & h' & od & ct & Hrun & Ho & _ & Hsize & _ & _ & Hshape & _).
    + left. split; [reflexivity|]. left. reflexivity.
    + exists o, h', od. split; [exact Hrun|]. split; [exact Ho|].
      split; [apply Hshape; simpl; lia | exact Hsize].
Defined.

(** C10.  When the shapes of the two operands differ, the binary function
    exits with the size error, before any other check and with the heap
    untouched, unless the number-OK flag is set and one operand has a
    single element: without the flag even a single number against an array
    is rejected.  So the function returns on operands of different shapes
    only with the flag set and a one-element operand, and in that case it
    does return (for [pow] on distinct well-formed floating point
    operands). *)
Theorem binary_function_f_size_check M operator flags l r (h : heap) ld rd :
  h !! l = Some ld → h !! r = Some rd →
  shape ld ≠ shape rd →
  (flag_set flags GAL_DATA_ARITH_NUMOK = false
   ∨ (size ld ≠ 1%nat ∧ size rd ≠ 1%nat) →
   data_arithmetic_binary_function_f M operator flags l r h
   = Exit InputsDifferentSize h)
  ∧ (∀ o h',
       data_arithmetic_binary_function_f M operator flags l r h = Done o h' →
       flag_set flags GAL_DATA_ARITH_NUMOK = true
       ∧ (size ld = 1%nat ∨ size rd = 1%nat))
  ∧ (flag_set flags GAL_DATA_ARITH_NUMOK = true →
     size ld = 1%nat ∨ size rd = 1%nat →
     l ≠ r → wf_data ld = true → wf_data rd = true →
     is_float_type (type ld) = true → is_float_type (type rd) = true →
     ∃ o h',
       data_arithmetic_binary_function_f M GAL_DATA_OPERATOR_POW flags l r h
       = Done o h').
Proof.
  intros Hl Hr Hdiff.
  assert (flag_set flags GAL_DATA_ARITH_NUMOK = false
          ∨ (size ld ≠ 1%nat ∧ size rd ≠ 1%nat) →
          data_arithmetic_binary_function_f M operator flags l r h
          = Exit InputsDifferentSize h) as Hreject.
  { intros Hno. apply (binary_function_f_rejects M _ _ _ _ _ ld rd); [done..|].
    intros [[Hflag Hone]|Hsame]; [|done].
    destruct Hno as [Hno|[??]]; [congruence|tauto]. }
  split; [done|]. split.
  - intros o h' Hdone.
    destruct (flag_set flags GAL_DATA_ARITH_NUMOK) eqn:Hflag.
    + split; [done|].
      destruct (decide (size ld = 1%nat)) as [|Hl1]; [by left|].
      destruct (decide (size rd = 1%nat)) as [|Hr1]; [by right|].
      rewrite Hreject in Hdone by auto. discriminate.
    + rewrite Hreject in Hdone by auto. discriminate.
  - intros Hflag Hone Hne Hwl Hwr Hfl Hfr.
    destruct (binary_function_f_spec M flags l r h ld rd)
      as (o & od & ct & Hrun & _); try done.
    + apply binary_accepts_iff. by left.
    + eauto.
Qed.

Lemma binary_function_f_size_check_witness :
  data_arithmetic_binary_function_f sample_libm GAL_DATA_OPERATOR_POW 0%N
    1%positive 2%positive (heap_of [number_2; ramp_5])
  = Exit InputsDifferentSize (heap_of [number_2; ramp_5]).
Proof.
  apply (binary_function_f_size_check sample_libm GAL_DATA_OPERATOR_POW 0%N
           1%positive 2%positive (heap_of [number_2; ramp_5]) number_2 ramp_5).
  - reflexivity.
  - reflexivity.
  - unfold shape. simpl. intros E. discriminate E.
  - left. reflexivity.
Defined.

(** * Further behaviour of the functions *)

(** ** Change of type *)




(** ** Logical negation *)

Lemma negated_lookup_lt d k i x :
  (i < k)%nat → array d !! i = Some x →
  array (negated d k) !! i = Some (convert c_unsigned_char (c_not x)).
Proof.
  intros Hi Hx. simpl.
  assert (i < length (array d))%nat by (by apply lookup_lt_Some in Hx).
  rewrite lookup_app_l by (rewrite length_fmap, length_take; lia).
  by rewrite list_lookup_fmap, lookup_take_lt, Hx.
Qed.

Lemma negated_lookup_ge d k i :
  (k ≤ length (array d))%nat → (k ≤ i < size d)%nat →
  array (negated d k) !! i = Some Undef.
Proof.
  intros Hk Hi. simpl.
  rewrite lookup_app_r; rewrite length_fmap, length_take; [|lia].
  apply lookup_replicate_2. lia.
Qed.

Lemma negated_length d k :
  (k ≤ length (array d))%nat → (k ≤ size d)%nat →
  length (array (negated d k)) = size d.
Proof.
  intros Hk Hs. simpl.
  rewrite length_app, length_fmap, length_take, length_replicate. lia.
Qed.

(** The heap [not] leaves, for the lemmas below. *)
Lemma not_result data flags (h : heap) d ct :
  h !! data = Some d → wf_data d = true → c_type_of (type d) = Some ct →
  data_arithmetic_not data flags h
  = Done (fresh (dom h))
      (if flag_set flags GAL_DATA_ARITH_FREE
       then delete data (<[fresh (dom h) := negated d (turns (sizeof ct) (size d))]> h)
       else <[fresh (dom h) := negated d (turns (sizeof ct) (size d))]> h).
Proof. intros. by rewrite (data_arithmetic_not_spec data flags h d ct). Qed.

Lemma not_result_lookup data flags (h : heap) d k :
  h !! data = Some d →
  (if flag_set flags GAL_DATA_ARITH_FREE
   then delete data (<[fresh (dom h) := negated d k]> h)
   else <[fresh (dom h) := negated d k]> h) !! fresh (dom h)
  = Some (negated d k).
Proof.
  intros Hd. pose proof (live_not_fresh h data d Hd).
  destruct (flag_set flags GAL_DATA_ARITH_FREE);
    [rewrite lookup_delete_ne by done|]; apply lookup_insert_eq.
Qed.

(** X2.  On a well-formed input of a one-byte type ([unsigned char], [char]
    or logical) whose elements are all there, [data_arithmetic_not] returns
    a dataset that was not live before, of the [unsigned char] type and of
    the shape of the input, in which element [i] is 1 where the input's is
    zero and 0 elsewhere. *)
Theorem not_negates_one_byte_types data flags (h : heap) d :
  h !! data = Some d → wf_data d = true →
  type d = GAL_DATA_TYPE_UCHAR ∨ type d = GAL_DATA_TYPE_CHAR
  ∨ type d = GAL_DATA_TYPE_LOGICAL →
  Forall defined (array d) →
  ∃ o h' od,
    data_arithmetic_not data flags h = Done o h'
    ∧ h !! o = None ∧ h' !! o = Some od
    ∧ type od = GAL_DATA_TYPE_UCHAR ∧ shape od = shape d
    ∧ length (array od) = size d
    ∧ ∀ i x, array d !! i = Some x →
             array od !! i = Some (Int (if is_zero x then 1 else 0)).
Proof.
  intros Hd Hwf Htype Hdef.
  pose proof Hwf as (Hlen & _ & _ & Hpos)%wf_data_spec.
  assert (∃ ct, c_type_of (type d) = Some ct ∧ sizeof ct = 1%nat) as (ct & Hct & Hone).
  { destruct Htype as [-> | [-> | ->]]; by eexists. }
  rewrite (not_result data flags h d ct) by done.
  rewrite Hone, turns_one by done.
  eexists _, _, _. split; [reflexivity|]. split; [apply fresh_not_live|].
  split; [by apply not_result_lookup|].
  split; [done|]. split; [done|].
  split; [apply negated_length; lia|].
  intros i x Hx.
  rewrite (negated_lookup_lt d (size d) i x); [|by apply lookup_lt_Some in Hx; lia|done].
  f_equal. apply negation_value.
  by apply (Forall_lookup_1 _ _ _ _ Hdef Hx).
Qed.

Lemma not_negates_one_byte_types_witness :
  ∃ o h' od,
    data_arithmetic_not 1%positive 0%N
      (heap_of [dataset GAL_DATA_TYPE_UCHAR [4%nat] [Int 0; Int 2; Int 0; Int 5]])
    = Done o h'
    ∧ h' !! o = Some od
    ∧ array od !! 1%nat = Some (Int 0) ∧ array od !! 2%nat = Some (Int 1).
Proof.
  destruct (not_negates_one_byte_types 1%positive 0%N
              (heap_of [dataset GAL_DATA_TYPE_UCHAR [4%nat] [Int 0; Int 2; Int 0; Int 5]])
              (dataset GAL_DATA_TYPE_UCHAR [4%nat] [Int 0; Int 2; Int 0; Int 5]))
    as (o & h' & od & Hrun & _ & Ho & _ & _ & _ & Hval); try reflexivity.
  - left. reflexivity.
  - repeat constructor; discriminate.
  - exists o, h', od. split; [exact Hrun|]. split; [exact Ho|].
    split; [apply (Hval 1%nat (Int 2)) | apply (Hval 2%nat (Int 0))]; reflexivity.
Defined.

(** X3.  On a well-formed input of any type but the bit type, the loop of
    [data_arithmetic_not] makes [turns (sizeof T) size] turns, one more
    than the quotient of [size - 1] by the size in bytes of an element: the
    elements of the output before that index are the negations of the
    input's, and the elements from that index on are never written. *)
Theorem not_negates_leading_elements data flags (h : heap) d ct :
  h !! data = Some d → wf_data d = true → c_type_of (type d) = Some ct →
  ∃ o h' od,
    data_arithmetic_not data flags h = Done o h'
    ∧ h !! o = None ∧ h' !! o = Some od
    ∧ type od = GAL_DATA_TYPE_UCHAR ∧ shape od = shape d
    ∧ length (array od) = size d
    ∧ (∀ i x, (i < turns (sizeof ct) (size d))%nat → array d !! i = Some x →
              array od !! i = Some (convert c_unsigned_char (c_not x)))
    ∧ (∀ i, (turns (sizeof ct) (size d) ≤ i < size d)%nat →
            array od !! i = Some Undef).
Proof.
  intros Hd Hwf Hct.
  pose proof Hwf as (Hlen & _ & _ & Hpos)%wf_data_spec.
  pose proof (turns_le (sizeof ct) (size d) (sizeof_pos ct) Hpos) as Hle.
  rewrite (not_result data flags h d ct) by done.
  eexists _, _, _. split; [reflexivity|]. split; [apply fresh_not_live|].
  split; [by apply not_result_lookup|].
  split; [done|]. split; [done|].
  split; [apply negated_length; lia|].
  split.
  - intros i x Hi Hx. by apply negated_lookup_lt.
  - intros i Hi. apply negated_lookup_ge; lia.
Qed.

Lemma not_negates_leading_elements_witness :
  ∃ o h' od,
    data_arithmetic_not 1%positive 0%N (heap_of [ints_3]) = Done o h'
    ∧ h' !! o = Some od
    ∧ array od !! 0%nat = Some (Int 0) ∧ array od !! 1%nat = Some Undef.
Proof.
  destruct (not_negates_leading_elements 1%positive 0%N (heap_of [ints_3]) ints_3 c_int)
    as (o & h' & od & Hrun & _ & Ho & _ & _ & _ & Hlead & Hrest); try reflexivity.
  exists o, h', od. split; [exact Hrun|]. split; [exact Ho|]. split.
  - apply (Hlead 0%nat (Int 1)); [vm_compute; lia | reflexivity].
  - apply Hrest. vm_compute. lia.
Defined.

(** X4.  On a well-formed input of any type but the bit type,
    [data_arithmetic_not] frees its input when the free flag is set and
    leaves it exactly as it was when it is not, and touches no other
    dataset that was live. *)
Theorem not_keeps_other_datasets data flags (h : heap) d ct :
  h !! data = Some d → wf_data d = true → c_type_of (type d) = Some ct →
  ∃ o h',
    data_arithmetic_not data flags h = Done o h'
    ∧ h' !! data = (if flag_set flags GAL_DATA_ARITH_FREE then None else Some d)
    ∧ others_untouched [data] h h'.
Proof.
  intros Hd Hwf Hct.
  pose proof (live_not_fresh h data d Hd) as Hne.
  rewrite (not_result data flags h d ct) by done.
  eexists _, _. split; [reflexivity|].
  destruct (flag_set flags GAL_DATA_ARITH_FREE).
  - split; [apply lookup_delete_eq|].
    intros p pd Hp Hpd. apply not_elem_of_cons in Hp as [Hp _].
    rewrite lookup_delete_ne, lookup_insert_ne; [done| |done].
    by apply not_eq_sym, (live_not_fresh h p pd).
  - split; [by rewrite lookup_insert_ne|].
    intros p pd Hp Hpd. rewrite lookup_insert_ne; [done|].
    by apply not_eq_sym, (live_not_fresh h p pd).
Qed.

Lemma not_keeps_other_datasets_witness :
  ∃ o h',
    data_arithmetic_not 2%positive GAL_DATA_ARITH_FREE (heap_of [number_2; ints_3])
    = Done o h'
    ∧ h' !! 2%positive = None ∧ h' !! 1%positive = Some number_2.
Proof.
  destruct (not_keeps_other_datasets 2%positive GAL_DATA_ARITH_FREE
              (heap_of [number_2; ints_3]) ints_3 c_int)
    as (o & h' & Hrun & Hdata & Hothers); try reflexivity.
  exists o, h'. split; [exact Hrun|]. split; [exact Hdata|].
  apply Hothers; [|reflexivity].
  intros Hin. apply list_elem_of_singleton in Hin. discriminate Hin.
Defined.

(** X5.  On an input of the bit type [data_arithmetic_not] exits with the
    error for the unsupported type.  It does so after it has allocated its
    output and before it frees anything: the input is still live, as it
    was, whatever the free flag. *)
Theorem not_rejects_bit_type data flags (h : heap) d :
  h !! data = Some d → type d = GAL_DATA_TYPE_BIT →
  ∃ h',
    data_arithmetic_not data flags h = Exit BitTypeNotSupported h'
    ∧ kind_of BitTypeNotSupported = UnsupportedKind
    ∧ h' !! data = Some d
    ∧ is_Some (h' !! fresh (dom h)).
Proof.
  intros Hd Ht. unfold data_arithmetic_not.
  rewrite (bind_Done _ _ _ _ _ (deref_live h data d Hd)).
  unfold bind at 1, gal_data_alloc. rewrite Ht.
  eexists. split; [reflexivity|]. split; [done|].
  split; [rewrite lookup_insert_ne; [done|]; by apply not_eq_sym, (live_not_fresh h data d)|].
  rewrite lookup_insert_eq. by eexists.
Qed.

Lemma not_rejects_bit_type_witness :
  ∃ h',
    data_arithmetic_not 1%positive GAL_DATA_ARITH_FREE
      (heap_of [dataset GAL_DATA_TYPE_BIT [2%nat] [Int 0; Int 1]])
    = Exit BitTypeNotSupported h'
    ∧ h' !! 1%positive = Some (dataset GAL_DATA_TYPE_BIT [2%nat] [Int 0; Int 1]).
Proof.
  destruct (not_rejects_bit_type 1%positive GAL_DATA_ARITH_FREE
              (heap_of [dataset GAL_DATA_TYPE_BIT [2%nat] [Int 0; Int 1]])
              (dataset GAL_DATA_TYPE_BIT [2%nat] [Int 0; Int 1]))
    as (h' & Hrun & _ & Hdata & _); try reflexivity.
  exists h'. split; [exact Hrun | exact Hdata].
Defined.

Lemma negated_wf d :
  wf_data d = true → wf_data (negated d (size d)) = true.
Proof.
  intros (Hlen & Hnd & Hprod & Hpos)%wf_data_spec. apply wf_data_spec.
  split; [by rewrite negated_length by lia|]. by repeat split.
Qed.

(** X6.  Negating twice turns a well-formed input of a one-byte type into
    truth values: the second output holds 0 where the input is zero and 1
    where it is not, so a dataset of zeros and ones comes back as it was. *)
Theorem not_twice_gives_truth_values data flags1 flags2 (h : heap) d :
  h !! data = Some d → wf_data d = true →
  type d = GAL_DATA_TYPE_UCHAR ∨ type d = GAL_DATA_TYPE_CHAR
  ∨ type d = GAL_DATA_TYPE_LOGICAL →
  Forall defined (array d) →
  ∃ o1 h1 o2 h2 od,
    data_arithmetic_not data flags1 h = Done o1 h1
    ∧ data_arithmetic_not o1 flags2 h1 = Done o2 h2
    ∧ h2 !! o2 = Some od
    ∧ shape od = shape d ∧ length (array od) = size d
    ∧ ∀ i x, array d !! i = Some x →
             array od !! i = Some (Int (if is_zero x then 0 else 1)).
Proof.
  intros Hd Hwf Htype Hdef.
  pose proof Hwf as (Hlen & _ & _ & Hpos)%wf_data_spec.
  assert (∃ ct, c_type_of (type d) = Some ct ∧ sizeof ct = 1%nat) as (ct & Hct & Hone).
  { destruct Htype as [-> | [-> | ->]]; by eexists. }
  rewrite (not_result data flags1 h d ct) by done.
  rewrite Hone, turns_one by done.
  set (o1 := fresh (dom h)).
  set (h1 := if flag_set flags1 GAL_DATA_ARITH_FREE
             then delete data (<[o1 := negated d (size d)]> h)
             else <[o1 := negated d (size d)]> h).
  assert (h1 !! o1 = Some (negated d (size d))) as Ho1
    by (by apply not_result_lookup).
  pose proof (negated_wf d Hwf) as Hwf1.
  exists o1, h1.
  rewrite (not_result o1 flags2 h1 (negated d (size d)) c_unsigned_char) by done.
  simpl sizeof. simpl size. rewrite turns_one by done.
  eexists _, _, _. split; [reflexivity|]. split; [reflexivity|].
  split; [by apply not_result_lookup|].
  split; [done|].
  split; [rewrite negated_length; [done|rewrite negated_length; lia|simpl; lia]|].
  intros i x Hx.
  assert (i < size d)%nat by (apply lookup_lt_Some in Hx; lia).
  rewrite (negated_lookup_lt (negated d (size d)) (size d) i
             (convert c_unsigned_char (c_not x)));
    [|done|by apply negated_lookup_lt].
  pose proof (Forall_lookup_1 _ _ _ _ Hdef Hx) as Hdx.
  rewrite (negation_value x Hdx). destruct (is_zero x); reflexivity.
Qed.

Lemma not_twice_gives_truth_values_witness :
  ∃ o1 h1 o2 h2 od,
    data_arithmetic_not 1%positive 0%N
      (heap_of [dataset GAL_DATA_TYPE_UCHAR [3%nat] [Int 1; Int 0; Int 1]])
    = Done o1 h1
    ∧ data_arithmetic_not o1 GAL_DATA_ARITH_FREE h1 = Done o2 h2
    ∧ h2 !! o2 = Some od
    ∧ array od !! 0%nat = Some (Int 1) ∧ array od !! 1%nat = Some (Int 0).
Proof.
  destruct (not_twice_gives_truth_values 1%positive 0%N GAL_DATA_ARITH_FREE
              (heap_of [dataset GAL_DATA_TYPE_UCHAR [3%nat] [Int 1; Int 0; Int 1]])
              (dataset GAL_DATA_TYPE_UCHAR [3%nat] [Int 1; Int 0; Int 1]))
    as (o1 & h1 & o2 & h2 & od & Hrun1 & Hrun2 & Ho & _ & _ & Hval);
    try reflexivity.
  - left. reflexivity.
  - repeat constructor; discriminate.
  - exists o1, h1, o2, h2, od. split; [exact Hrun1|]. split; [exact Hrun2|].
    split; [exact Ho|].
    split; [apply (Hval 0%nat (Int 1)) | apply (Hval 1%nat (Int 0))]; reflexivity.
Defined.

(** ** Unary functions *)

(** X7.  On a well-formed [float] or [double] input, with [sqrt], [log] or
    [log10], every element of the dataset returned is the function applied
    to the same element of the input, converted to the type of the input;
    the values are the same whatever the flags, in place or not. *)
Theorem unary_function_f_values M operator OP flags inp (h : heap) d ct :
  h !! inp = Some d → wf_data d = true →
  is_float_type (type d) = true → c_type_of (type d) = Some ct →
  unary_op M operator = Some OP →
  ∃ o h' od,
    data_arithmetic_unary_function_f M operator flags inp h = Done o h'
    ∧ h' !! o = Some od
    ∧ length (array od) = size d
    ∧ ∀ i x, array d !! i = Some x →
             array od !! i = Some (convert ct (call1 OP x)).
Proof.
  intros Hin Hwf Hf Hct Hop.
  pose proof Hwf as (Hlen & _)%wf_data_spec.
  pose proof (live_not_fresh h inp d Hin) as Hne.
  assert (∀ i x, array d !! i = Some x →
            array (with_array d ((λ x, convert ct (call1 OP x)) <$> array d)) !! i
            = Some (convert ct (call1 OP x))) as Hval.
  { intros i x Hx. simpl. by rewrite list_lookup_fmap, Hx. }
  destruct (flag_set flags GAL_DATA_ARITH_INPLACE) eqn:Hflag.
  - rewrite (unary_function_f_inplace M operator OP flags inp h d ct) by done.
    eexists _, _, _. split; [reflexivity|]. split; [apply lookup_insert_eq|].
    split; [by simpl; rewrite length_fmap|done].
  - rewrite (unary_function_f_alloc M operator OP flags inp h d ct) by done.
    simpl. eexists _, _, _. split; [reflexivity|]. split; [output_live|].
    split; [by simpl; rewrite length_fmap|done].
Qed.

Lemma unary_function_f_values_witness :
  ∃ o h' od,
    data_arithmetic_unary_function_f sample_libm GAL_DATA_OPERATOR_SQRT 0%N
      1%positive (heap_of [squares_2]) = Done o h'
    ∧ h' !! o = Some od
    ∧ array od = [f32 2; f32 3].
Proof.
  destruct (unary_function_f_values sample_libm GAL_DATA_OPERATOR_SQRT
              (SFsqrt 53 1024) 0%N 1%positive (heap_of [squares_2]) squares_2 c_float)
    as (o & h' & od & Hrun & Ho & Hlen & Hval); try reflexivity.
  exists o, h', od. split; [exact Hrun|]. split; [exact Ho|].
  pose proof (Hval 0%nat (f32 4) eq_refl) as H0.
  pose proof (Hval 1%nat (f32 9) eq_refl) as H1.
  destruct (array od) as [|a [|b [|c rest]]]; try discriminate Hlen.
  injection H0 as ->. injection H1 as ->. vm_compute. reflexivity.
Defined.

(** X8.  On a well-formed [float] or [double] input, with [sqrt], [log] or
    [log10], the unary function touches no dataset but its input and its
    output; when it does not work in place, the input is left exactly as it
    was, or freed if the free flag is set. *)
Theorem unary_function_f_keeps_other_datasets M operator OP flags inp (h : heap) d ct :
  h !! inp = Some d → wf_data d = true →
  is_float_type (type d) = true → c_type_of (type d) = Some ct →
  unary_op M operator = Some OP →
  ∃ o h',
    data_arithmetic_unary_function_f M operator flags inp h = Done o h'
    ∧ (flag_set flags GAL_DATA_ARITH_INPLACE = false →
       h' !! inp = if flag_set flags GAL_DATA_ARITH_FREE then None else Some d)
    ∧ others_untouched [inp] h h'.
Proof.
  intros Hin Hwf Hf Hct Hop.
  pose proof (live_not_fresh h inp d Hin) as Hne.
  destruct (flag_set flags GAL_DATA_ARITH_INPLACE) eqn:Hflag.
  - rewrite (unary_function_f_inplace M operator OP flags inp h d ct) by done.
    eexists _, _. split; [reflexivity|]. split; [done|].
    intros p pd Hp Hpd. apply not_elem_of_cons in Hp as [Hp _].
    by rewrite lookup_insert_ne.
  - rewrite (unary_function_f_alloc M operator OP flags inp h d ct) by done.
    simpl. eexists _, _. split; [reflexivity|].
    destruct (flag_set flags GAL_DATA_ARITH_FREE).
    + split; [intros _; apply lookup_delete_eq|].
      intros p pd Hp Hpd. apply not_elem_of_cons in Hp as [Hp _].
      rewrite lookup_delete_ne, lookup_insert_ne; [done| |done].
      by apply not_eq_sym, (live_not_fresh h p pd).
    + split; [intros _; by rewrite lookup_insert_ne|].
      intros p pd Hp Hpd. rewrite lookup_insert_ne; [done|].
      by apply not_eq_sym, (live_not_fresh h p pd).
Qed.

Lemma unary_function_f_keeps_other_datasets_witness :
  ∃ o h',
    data_arithmetic_unary_function_f sample_libm GAL_DATA_OPERATOR_SQRT 0%N
      1%positive (heap_of [squares_2; ints_3]) = Done o h'
    ∧ h' !! 1%positive = Some squares_2 ∧ h' !! 2%positive = Some ints_3.
Proof.
  destruct (unary_function_f_keeps_other_datasets sample_libm GAL_DATA_OPERATOR_SQRT
              (SFsqrt 53 1024) 0%N 1%positive (heap_of [squares_2; ints_3])
              squares_2 c_float)
    as (o & h' & Hrun & Hinp & Hothers); try reflexivity.
  exists o, h'. split; [exact Hrun|]. split; [exact (Hinp eq_refl)|].
  apply Hothers; [|reflexivity].
  intros Hin. apply list_elem_of_singleton in Hin. discriminate Hin.
Defined.

(** X9.  On a [float] or [double] input, an operator that is none of [sqrt],
    [log] and [log10] makes the unary function exit with the error for an
    unrecognized operator.  The input is still live and as it was; in place
    the heap is unchanged, and otherwise the output had already been
    allocated. *)
Theorem unary_function_f_rejects_operator M operator flags inp (h : heap) d :
  h !! inp = Some d → is_float_type (type d) = true →
  unary_op M operator = None →
  ∃ h',
    data_arithmetic_unary_function_f M operator flags inp h
    = Exit (OperatorNotRecognized "data_arithmetic_binary_function" operator) h'
    ∧ h' !! inp = Some d
    ∧ (if flag_set flags GAL_DATA_ARITH_INPLACE then h' = h
       else h !! fresh (dom h) = None ∧ is_Some (h' !! fresh (dom h))).
Proof.
  intros Hin Hf Hop.
  pose proof (live_not_fresh h inp d Hin) as Hne.
  unfold data_arithmetic_unary_function_f.
  rewrite (bind_Done _ _ _ _ _ (check_float_input_ok inp _ _ h d Hin Hf)).
  destruct (flag_set flags GAL_DATA_ARITH_INPLACE).
  - unfold bind at 1, ret at 1. exists h.
    split; [by destruct operator|]. by split.
  - unfold bind at 1, bind at 1, deref at 1. rewrite Hin. unfold gal_data_alloc.
    eexists. split; [by destruct operator|].
    split; [by rewrite lookup_insert_ne|].
    split; [apply fresh_not_live|]. rewrite lookup_insert_eq. by eexists.
Qed.

Lemma unary_function_f_rejects_operator_witness :
  data_arithmetic_unary_function_f sample_libm GAL_DATA_OPERATOR_POW
    GAL_DATA_ARITH_INPLACE 1%positive (heap_of [squares_2])
  = Exit (OperatorNotRecognized "data_arithmetic_binary_function" GAL_DATA_OPERATOR_POW)
      (heap_of [squares_2]).
Proof.
  pose proof (unary_function_f_rejects_operator sample_libm GAL_DATA_OPERATOR_POW
                GAL_DATA_ARITH_INPLACE 1%positive (heap_of [squares_2]) squares_2
                eq_refl eq_refl eq_refl)
    as (h' & Hrun & _ & Hsame).
  simpl in Hsame. rewrite Hsame in Hrun. exact Hrun.
Defined.

(** ** Binary functions *)

Lemma binary_cleanup_other flags l r o (h : heap) p :
  p ≠ l → p ≠ r → binary_cleanup flags l r o h !! p = h !! p.
Proof.
  intros Hl Hr. unfold binary_cleanup.
  destruct (flag_set flags GAL_DATA_ARITH_FREE); [|done].
  repeat case_bool_decide; by rewrite ?lookup_delete_ne.
Qed.

Lemma binary_cleanup_left flags l r o (h : heap) :
  l ≠ r → o ≠ l →
  binary_cleanup flags l r o h !! l
  = if flag_set flags GAL_DATA_ARITH_FREE then None else h !! l.
Proof.
  intros Hne Ho. unfold binary_cleanup.
  destruct (flag_set flags GAL_DATA_ARITH_FREE); [|done].
  rewrite (bool_decide_eq_false_2 (o = l)) by done.
  case_bool_decide; [apply lookup_delete_eq|].
  rewrite lookup_delete_ne by done. apply lookup_delete_eq.
Qed.

Lemma binary_cleanup_right flags l r o (h : heap) :
  l ≠ r → o ≠ r →
  binary_cleanup flags l r o h !! r
  = if flag_set flags GAL_DATA_ARITH_FREE then None else h !! r.
Proof.
  intros Hne Ho. unfold binary_cleanup.
  destruct (flag_set flags GAL_DATA_ARITH_FREE); [|done].
  case_bool_decide; [apply lookup_delete_eq|].
  rewrite (bool_decide_eq_false_2 (o = r)) by done. apply lookup_delete_eq.
Qed.

(** X10.  Once the sizes have passed the check, the binary function looks at
    the types of the operands, the left one first: an operand that is
    neither [float] nor [double] makes it exit, naming the operand as the
    first or the second, with the heap as it was; when both are of another
    type, the error is about the first.  This holds for every operator. *)
Theorem binary_function_f_checks_operand_types M operator flags l r (h : heap) ld rd :
  h !! l = Some ld → h !! r = Some rd → accepted flags ld rd →
  (is_float_type (type ld) = false →
   data_arithmetic_binary_function_f M operator flags l r h
   = Exit (NotFloatOperand operator "first" (type ld)) h)
  ∧ (is_float_type (type ld) = true → is_float_type (type rd) = false →
     data_arithmetic_binary_function_f M operator flags l r h
     = Exit (NotFloatOperand operator "second" (type rd)) h).
Proof.
  intros Hl Hr Hacc%binary_accepts_iff.
  unfold data_arithmetic_binary_function_f.
  rewrite (bind_Done _ _ _ _ _ (deref_live h l ld Hl)).
  rewrite (bind_Done _ _ _ _ _ (deref_live h r rd Hr)).
  rewrite (bind_Done _ _ _ _ _ (size_check_passes flags ld rd h Hacc)).
  split.
  - intros Hfl.
    by rewrite (bind_Exit _ _ _ _ _ (check_float_input_fails l _ _ h ld Hl Hfl)).
  - intros Hfl Hfr.
    rewrite (bind_Done _ _ _ _ _ (check_float_input_ok l _ _ h ld Hl Hfl)).
    by rewrite (bind_Exit _ _ _ _ _ (check_float_input_fails r _ _ h rd Hr Hfr)).
Qed.

Lemma binary_function_f_checks_operand_types_witness :
  data_arithmetic_binary_function_f sample_libm GAL_DATA_OPERATOR_POW 0%N
    1%positive 2%positive (heap_of [ints_3; ints_3])
  = Exit (NotFloatOperand GAL_DATA_OPERATOR_POW "first" GAL_DATA_TYPE_INT)
      (heap_of [ints_3; ints_3])
  ∧ data_arithmetic_binary_function_f sample_libm GAL_DATA_OPERATOR_POW 0%N
      1%positive 2%positive (heap_of [squares_3; ints_3])
    = Exit (NotFloatOperand GAL_DATA_OPERATOR_POW "second" GAL_DATA_TYPE_INT)
        (heap_of [squares_3; ints_3]).
Proof.
  split.
  - apply (binary_function_f_checks_operand_types sample_libm GAL_DATA_OPERATOR_POW
             0%N 1%positive 2%positive (heap_of [ints_3; ints_3]) ints_3 ints_3);
      [reflexivity | reflexivity | by right | reflexivity].
  - apply (binary_function_f_checks_operand_types sample_libm GAL_DATA_OPERATOR_POW
             0%N 1%positive 2%positive (heap_of [squares_3; ints_3]) squares_3 ints_3);
      [reflexivity | reflexivity | by right | reflexivity | reflexivity].
Defined.

(** X11.  With [float] or [double] operands that pass the size check, an
    operator other than [pow] makes the binary function exit with the error
    for an unrecognized operator.  Both operands are still live and as they
    were; the heap is unchanged when an operand had been chosen as the
    output, and otherwise the output had already been allocated. *)
Theorem binary_function_f_rejects_operator M operator flags l r (h : heap) ld rd :
  h !! l = Some ld → h !! r = Some rd → accepted flags ld rd →
  is_float_type (type ld) = true → is_float_type (type rd) = true →
  operator ≠ GAL_DATA_OPERATOR_POW →
  ∃ h',
    data_arithmetic_binary_function_f M operator flags l r h
    = Exit (OperatorNotRecognized "data_arithmetic_binary_function" operator) h'
    ∧ h' !! l = Some ld ∧ h' !! r = Some rd
    ∧ match inplace_output flags (gal_data_out_type ld rd) (out_size_of ld rd)
              l r ld rd with
      | Some _ => h' = h
      | None => h !! fresh (dom h) = None ∧ is_Some (h' !! fresh (dom h))
      end.
Proof.
  intros Hl Hr Hacc%binary_accepts_iff Hfl Hfr Hop.
  pose proof (live_not_fresh h l ld Hl) as Hnl.
  pose proof (live_not_fresh h r rd Hr) as Hnr.
  unfold data_arithmetic_binary_function_f.
  rewrite (bind_Done _ _ _ _ _ (deref_live h l ld Hl)).
  rewrite (bind_Done _ _ _ _ _ (deref_live h r rd Hr)).
  rewrite (bind_Done _ _ _ _ _ (size_check_passes flags ld rd h Hacc)).
  rewrite (bind_Done _ _ _ _ _ (check_float_input_ok l _ _ h ld Hl Hfl)).
  rewrite (bind_Done _ _ _ _ _ (check_float_input_ok r _ _ h rd Hr Hfr)).
  fold (out_size_of ld rd).
  destruct (inplace_output _ _ _ _ _ _ _) as [p|].
  - exists h. unfold bind at 1, ret at 1.
    split; [by destruct operator|]. by repeat split.
  - unfold bind at 1, gal_data_alloc at 1.
    eexists. split; [by destruct operator|].
    split; [by rewrite lookup_insert_ne|].
    split; [by rewrite lookup_insert_ne|].
    split; [apply fresh_not_live|]. rewrite lookup_insert_eq. by eexists.
Qed.

Lemma binary_function_f_rejects_operator_witness :
  data_arithmetic_binary_function_f sample_libm GAL_DATA_OPERATOR_SQRT
    GAL_DATA_ARITH_INPLACE 1%positive 2%positive (heap_of [squares_2; squares_2])
  = Exit (OperatorNotRecognized "data_arithmetic_binary_function" GAL_DATA_OPERATOR_SQRT)
      (heap_of [squares_2; squares_2]).
Proof.
  assert (GAL_DATA_OPERATOR_SQRT ≠ GAL_DATA_OPERATOR_POW) as Hop by discriminate.
  pose proof (binary_function_f_rejects_operator sample_libm GAL_DATA_OPERATOR_SQRT
                GAL_DATA_ARITH_INPLACE 1%positive 2%positive
                (heap_of [squares_2; squares_2]) squares_2 squares_2
                eq_refl eq_refl (or_intror eq_refl) eq_refl eq_refl Hop)
    as (h' & Hrun & _ & _ & Hsame).
  simpl in Hsame. rewrite Hsame in Hrun. exact Hrun.
Defined.

(** X12.  For two distinct well-formed [float] or [double] operands that
    pass the size check, [pow] touches no dataset but its operands and its
    output.  An operand that is not the output is freed when the free flag
    is set and left exactly as it was otherwise; the output is one of the
    operands or a dataset that was not live, and without the in-place flag
    it is always the latter. *)
Theorem binary_function_f_keeps_other_datasets M flags l r (h : heap) ld rd :
  l ≠ r → h !! l = Some ld → h !! r = Some rd →
  wf_data ld = true → wf_data rd = true →
  is_float_type (type ld) = true → is_float_type (type rd) = true →
  accepted flags ld rd →
  ∃ o h',
    data_arithmetic_binary_function_f M GAL_DATA_OPERATOR_POW flags l r h = Done o h'
    ∧ (o ≠ l → h' !! l = if flag_set flags GAL_DATA_ARITH_FREE then None else Some ld)
    ∧ (o ≠ r → h' !! r = if flag_set flags GAL_DATA_ARITH_FREE then None else Some rd)
    ∧ others_untouched [l; r] h h'
    ∧ (o = l ∨ o = r ∨ h !! o = None)
    ∧ (flag_set flags GAL_DATA_ARITH_INPLACE = false → h !! o = None).
Proof.
  intros Hne Hl Hr Hwl Hwr Hfl Hfr Hacc%binary_accepts_iff.
  destruct (binary_function_f_spec M flags l r h ld rd)
    as (o & od & ct & Hrun & Hct & Harr & Htype & Hsize & Hout); try done.
  exists o, (binary_cleanup flags l r o (<[o := od]> h)).
  split; [done|].
  assert (o = l ∨ o = r ∨ h !! o = None) as Hwhich.
  { destruct (inplace_output _ _ _ _ _ _ _) eqn:Hio.
    - destruct Hout as [-> _].
      apply inplace_output_Some in Hio as [_ [(-> & _)|(-> & _)]]; auto.
    - destruct Hout as [-> _]. right; right. apply fresh_not_live. }
  split.
  { intros Ho. rewrite binary_cleanup_left, lookup_insert_ne, Hl by done. done. }
  split.
  { intros Ho. rewrite binary_cleanup_right, lookup_insert_ne, Hr by done. done. }
  split.
  { intros p d Hp Hd.
    apply not_elem_of_cons in Hp as [Hpl Hp].
    apply not_elem_of_cons in Hp as [Hpr _].
    rewrite binary_cleanup_other, lookup_insert_ne; [done| |done|done].
    intros ->. destruct Hwhich as [->|[->|Hdead]]; [done|done|congruence]. }
  split; [done|].
  intros Hflag. unfold inplace_output in Hout. rewrite Hflag in Hout.
  destruct Hout as [-> _]. apply fresh_not_live.
Qed.

Lemma binary_function_f_keeps_other_datasets_witness :
  ∃ o h',
    data_arithmetic_binary_function_f sample_libm GAL_DATA_OPERATOR_POW
      GAL_DATA_ARITH_FREE 1%positive 2%positive
      (heap_of [squares_2; squares_2; ints_3]) = Done o h'
    ∧ h' !! 1%positive = None ∧ h' !! 2%positive = None
    ∧ h' !! 3%positive = Some ints_3.
Proof.
  destruct (binary_function_f_keeps_other_datasets sample_libm GAL_DATA_ARITH_FREE
              1%positive 2%positive (heap_of [squares_2; squares_2; ints_3])
              squares_2 squares_2)
    as (o & h' & Hrun & Hleft & Hright & Hothers & _ & Hnew);
    [discriminate | reflexivity | reflexivity | reflexivity | reflexivity
    | reflexivity | reflexivity | by right |].
  pose proof (Hnew eq_refl) as Hdead.
  exists o, h'. split; [exact Hrun|].
  split; [apply Hleft; intros ->; discriminate Hdead|].
  split; [apply Hright; intros ->; discriminate Hdead|].
  apply Hothers; [|reflexivity].
  intros Hin. apply elem_of_cons in Hin as [Hin|Hin]; [discriminate Hin|].
  apply list_elem_of_singleton in Hin. discriminate Hin.
Defined.

(** X13.  The same well-formed [float] or [double] dataset passed as both
    operands of [pow], with the free flag set.  In place, the operand is
    chosen as the output and then freed as the other operand: the pointer
    returned leads to a dataset that is no longer live, and the rest of the
    heap is as it was.  Out of place, the operand is freed twice. *)
Theorem binary_function_f_same_operand_twice M flags l (h : heap) ld :
  h !! l = Some ld → wf_data ld = true → is_float_type (type ld) = true →
  flag_set flags GAL_DATA_ARITH_FREE = true →
  data_arithmetic_binary_function_f M GAL_DATA_OPERATOR_POW flags l l h
  = if flag_set flags GAL_DATA_ARITH_INPLACE then Done l (delete l h) else Fault.
Proof.
  intros Hl Hwf Hf Hfree.
  pose proof Hwf as (Hlen & _ & _ & Hpos)%wf_data_spec.
  pose proof (live_not_fresh h l ld Hl) as Hnl.
  assert (binary_accepts flags ld ld = true) as Hacc.
  { unfold binary_accepts, gal_data_dsize_is_different.
    rewrite bool_decide_eq_true_2 by done. apply orb_true_r. }
  assert (gal_data_out_type ld ld = type ld) as Hout.
  { unfold gal_data_out_type. case_decide as Hd; [|done]. by destruct Hd. }
  assert (∃ ct, c_type_of (type ld) = Some ct) as [ct Hct].
  { destruct (type ld); try discriminate; by eauto. }
  assert (∀ i, (i < size ld)%nat →
            (left_index ld ld i < length (array ld))%nat
            ∧ (right_index ld ld i < length (array ld))%nat) as Hbound.
  { intros i Hi. unfold left_index, right_index. rewrite Nat.eqb_refl. lia. }
  assert (∀ i, left_index ld ld i = i) as Hli
    by (intros i; unfold left_index; by rewrite Nat.eqb_refl).
  assert (∀ i, right_index ld ld i = i) as Hri
    by (intros i; unfold right_index; by rewrite Nat.eqb_refl).
  unfold data_arithmetic_binary_function_f.
  rewrite (bind_Done _ _ _ _ _ (deref_live h l ld Hl)).
  rewrite (bind_Done _ _ _ _ _ (deref_live h l ld Hl)).
  rewrite (bind_Done _ _ _ _ _ (size_check_passes flags ld ld h Hacc)).
  rewrite (bind_Done _ _ _ _ _ (check_float_input_ok l _ _ h ld Hl Hf)).
  rewrite (bind_Done _ _ _ _ _ (check_float_input_ok l _ _ h ld Hl Hf)).
  rewrite Hout, !Nat.ltb_irrefl, Hfree. unfold inplace_output.
  rewrite bool_decide_eq_true_2, Nat.eqb_refl by done.
  rewrite andb_true_l.
  destruct (flag_set flags GAL_DATA_ARITH_INPLACE).
  - unfold bind at 1, ret at 1. unfold bind at 1.
    rewrite (BINFUNC_F_OPERATOR_SET_spec (c_pow M) l l l h ld ld ld ct); try done.
    rewrite bool_decide_eq_true_2 by done.
    unfold bind, gal_data_free, ret. rewrite lookup_insert_eq.
    by rewrite delete_insert_eq.
  - assert (gal_data_alloc (type ld)
              (if (1 <? size ld)%nat then ndim ld else ndim ld)
              (if (1 <? size ld)%nat then dsize ld else dsize ld)
              (if (1 <? size ld)%nat then wcs ld else wcs ld) false
              (minmapsize ld) h
            = Done (fresh (dom h))
                (<[fresh (dom h) :=
                     {| array := replicate (size ld) Undef; type := type ld;
                        ndim := ndim ld; dsize := dsize ld; size := size ld;
                        wcs := wcs ld; minmapsize := minmapsize ld |}]> h))
      as Halloc.
    { destruct (1 <? size ld)%nat; by apply alloc_like. }
    rewrite (bind_Done _ _ _ _ _ Halloc).
    set (o := fresh (dom h)) in *. set (od := {| array := _ |}).
    unfold bind at 1.
    rewrite (BINFUNC_F_OPERATOR_SET_spec (c_pow M) l l o (<[o := od]> h) ld ld od ct);
      try done; [|by rewrite lookup_insert_ne|by rewrite lookup_insert_ne
                 |apply lookup_insert_eq|by simpl; rewrite length_replicate].
    rewrite (bool_decide_eq_false_2 (o = l)) by done.
    unfold bind, gal_data_free, ret.
    rewrite !lookup_insert_ne, Hl by done. by rewrite lookup_delete_eq.
Qed.

Lemma binary_function_f_same_operand_twice_witness :
  returned (data_arithmetic_binary_function_f sample_libm GAL_DATA_OPERATOR_POW 3%N
              1%positive 1%positive (heap_of [squares_2])) = None
  ∧ data_arithmetic_binary_function_f sample_libm GAL_DATA_OPERATOR_POW 2%N
      1%positive 1%positive (heap_of [squares_2]) = Fault.
Proof.
  split.
  - rewrite (binary_function_f_same_operand_twice sample_libm 3%N 1%positive
               (heap_of [squares_2]) squares_2); reflexivity.
  - rewrite (binary_function_f_same_operand_twice sample_libm 2%N 1%positive
               (heap_of [squares_2]) squares_2); reflexivity.
Defined.

(** ** Where *)

Lemma where_cleanup_other flags cond iftrue (h : heap) p :
  p ≠ cond → p ≠ iftrue → where_cleanup flags cond iftrue h !! p = h !! p.
Proof.
  intros Hc Hi. unfold where_cleanup.
  destruct (flag_set flags GAL_DATA_ARITH_FREE); [|done].
  by rewrite !lookup_delete_ne.
Qed.

Lemma where_cleanup_inputs flags cond iftrue (h : heap) p :
  p = cond ∨ p = iftrue →
  where_cleanup flags cond iftrue h !! p
  = if flag_set flags GAL_DATA_ARITH_FREE then None else h !! p.
Proof.
  intros Hp. unfold where_cleanup.
  destruct (flag_set flags GAL_DATA_ARITH_FREE); [|done].
  destruct (decide (p = iftrue)) as [->|Hne]; [apply lookup_delete_eq|].
  destruct Hp as [-> | ->]; [|done].
  rewrite lookup_delete_ne by done. apply lookup_delete_eq.
Qed.

Lemma same_shape_same_dsize od cd :
  shape od = shape cd → gal_data_dsize_is_different od cd = false.
Proof.
  intros Hshape. unfold gal_data_dsize_is_different.
  injection Hshape as -> ->. by rewrite bool_decide_eq_true_2.
Qed.



(** X15.  Under the same conditions, [where] touches no dataset but its
    three arguments: the output stays live, the condition and the values are
    freed when the free flag is set and left exactly as they were otherwise,
    and every other dataset is as it was. *)
Theorem where_keeps_other_datasets operator flags out cond iftrue (h : heap)
    od cd id ITT OT :
  h !! out = Some od → h !! cond = Some cd → h !! iftrue = Some id →
  out ≠ cond → out ≠ iftrue → cond ≠ iftrue →
  wf_data od = true → wf_data cd = true → wf_data id = true →
  type cd = GAL_DATA_TYPE_UCHAR → shape od = shape cd →
  where_c_type (type od) = Some OT → where_c_type (type id) = Some ITT →
  size id = size od ∨ size id = 1%nat →
  ∃ h',
    data_arithmetic_where operator flags out cond iftrue h = Done tt h'
    ∧ is_Some (h' !! out)
    ∧ h' !! cond = (if flag_set flags GAL_DATA_ARITH_FREE then None else Some cd)
    ∧ h' !! iftrue = (if flag_set flags GAL_DATA_ARITH_FREE then None else Some id)
    ∧ others_untouched [out; cond; iftrue] h h'.
Proof.
  intros Ho Hc Hi Hnc Hni Hci Hwo Hwc Hwi Htc Hshape%same_shape_same_dsize Hot Hitt Hsz.
  rewrite (data_arithmetic_where_spec operator flags out cond iftrue h od cd id ITT OT)
    by done.
  eexists. split; [reflexivity|].
  split; [rewrite where_cleanup_other, lookup_insert_eq by done; by eexists|].
  split.
  { rewrite where_cleanup_inputs by auto.
    rewrite lookup_insert_ne by done. by rewrite Hc. }
  split.
  { rewrite where_cleanup_inputs by auto.
    rewrite lookup_insert_ne by done. by rewrite Hi. }
  intros p d Hp Hd.
  apply not_elem_of_cons in Hp as [Hpo Hp].
  apply not_elem_of_cons in Hp as [Hpc Hp].
  apply not_elem_of_cons in Hp as [Hpi _].
  rewrite where_cleanup_other by done. by rewrite lookup_insert_ne.
Qed.

Lemma where_keeps_other_datasets_witness :
  ∃ h',
    data_arithmetic_where GAL_DATA_OPERATOR_POW GAL_DATA_ARITH_FREE
      1%positive 2%positive 3%positive
      (heap_of [dataset GAL_DATA_TYPE_UCHAR [2%nat] [Int 5; Int 6];
                dataset GAL_DATA_TYPE_UCHAR [2%nat] [Int 0; Int 1];
                dataset GAL_DATA_TYPE_UCHAR [1%nat] [Int 9];
                ints_3])
    = Done tt h'
    ∧ h' !! 2%positive = None ∧ h' !! 3%positive = None
    ∧ h' !! 4%positive = Some ints_3.
Proof.
  destruct (where_keeps_other_datasets GAL_DATA_OPERATOR_POW GAL_DATA_ARITH_FREE
              1%positive 2%positive 3%positive
              (heap_of [dataset GAL_DATA_TYPE_UCHAR [2%nat] [Int 5; Int 6];
                        dataset GAL_DATA_TYPE_UCHAR [2%nat] [Int 0; Int 1];
                        dataset GAL_DATA_TYPE_UCHAR [1%nat] [Int 9];
                        ints_3])
              (dataset GAL_DATA_TYPE_UCHAR [2%nat] [Int 5; Int 6])
              (dataset GAL_DATA_TYPE_UCHAR [2%nat] [Int 0; Int 1])
              (dataset GAL_DATA_TYPE_UCHAR [1%nat] [Int 9])
              c_unsigned_char c_unsigned_char)
    as (h' & Hrun & _ & Hcond & Hvalues & Hothers);
    [reflexivity | reflexivity | reflexivity | discriminate | discriminate
    | discriminate | reflexivity | reflexivity | reflexivity | reflexivity
    | reflexivity | reflexivity | reflexivity | by right |].
  exists h'. split; [exact Hrun|]. split; [exact Hcond|]. split; [exact Hvalues|].
  apply Hothers; [|reflexivity].
  intros Hin. repeat (apply elem_of_cons in Hin as [Hin|Hin]; [discriminate Hin|]).
  by apply elem_of_nil in Hin.
Defined.

(** X16.  Once its two checks on the condition have passed, [where] exits
    with the error for an unrecognized type when the output is of the
    logical or the bit type, and, for an output of another type, when the
    values are of the logical or the bit type.  The heap is as it was:
    nothing is written, and nothing is freed whatever the flags. *)
Theorem where_rejects_types operator flags out cond iftrue (h : heap) od cd id :
  h !! out = Some od → h !! cond = Some cd → h !! iftrue = Some id →
  type cd = GAL_DATA_TYPE_UCHAR → shape od = shape cd →
  (where_c_type (type od) = None →
   data_arithmetic_where operator flags out cond iftrue h
   = Exit (TypeNotRecognized "data_arithmetic_where" (type od)) h)
  ∧ (where_c_type (type od) ≠ None → where_c_type (type id) = None →
     data_arithmetic_where operator flags out cond iftrue h
     = Exit (TypeNotRecognized "WHERE_OUT_SET" (type id)) h).
Proof.
  intros Ho Hc Hi Htc Hshape%same_shape_same_dsize.
  assert (∀ e,
    (match type od with
     | GAL_DATA_TYPE_UCHAR => WHERE_OUT_SET c_unsigned_char out cond iftrue
     | GAL_DATA_TYPE_CHAR => WHERE_OUT_SET c_char out cond iftrue
     | GAL_DATA_TYPE_USHORT => WHERE_OUT_SET c_unsigned_short out cond iftrue
     | GAL_DATA_TYPE_SHORT => WHERE_OUT_SET c_short out cond iftrue
     | GAL_DATA_TYPE_UINT => WHERE_OUT_SET c_unsigned_int out cond iftrue
     | GAL_DATA_TYPE_INT => WHERE_OUT_SET c_int out cond iftrue
     | GAL_DATA_TYPE_ULONG => WHERE_OUT_SET c_unsigned_long out cond iftrue
     | GAL_DATA_TYPE_LONG => WHERE_OUT_SET c_long out cond iftrue
     | GAL_DATA_TYPE_LONGLONG => WHERE_OUT_SET c_LONGLONG out cond iftrue
     | GAL_DATA_TYPE_FLOAT => WHERE_OUT_SET c_float out cond iftrue
     | GAL_DATA_TYPE_DOUBLE => WHERE_OUT_SET c_double out cond iftrue
     | t => error (TypeNotRecognized "data_arithmetic_where" t)
     end) h = Exit e h →
    data_arithmetic_where operator flags out cond iftrue h = Exit e h) as Hswitch.
  { intros e He. unfold data_arithmetic_where.
    rewrite (bind_Done _ _ _ _ _ (deref_live h cond cd Hc)).
    rewrite bool_decide_eq_true_2 by done. simpl.
    unfold bind at 1, ret at 1.
    rewrite (bind_Done _ _ _ _ _ (deref_live h out od Ho)).
    rewrite Hshape. unfold bind at 1, ret at 1.
    by apply bind_Exit. }
  split.
  - intros Hot. apply Hswitch. by destruct (type od).
  - intros Hot Hitt. apply Hswitch.
    assert (∀ OT, WHERE_OUT_SET OT out cond iftrue h
                  = Exit (TypeNotRecognized "WHERE_OUT_SET" (type id)) h) as Hset.
    { intros OT. unfold WHERE_OUT_SET.
      rewrite (bind_Done _ _ _ _ _ (deref_live h iftrue id Hi)).
      by destruct (type id). }
    destruct (type od); try (by destruct Hot); apply Hset.
Qed.

Lemma where_rejects_types_witness :
  data_arithmetic_where GAL_DATA_OPERATOR_POW GAL_DATA_ARITH_FREE
    1%positive 2%positive 3%positive
    (heap_of [dataset GAL_DATA_TYPE_UCHAR [2%nat] [Int 5; Int 6];
              dataset GAL_DATA_TYPE_UCHAR [2%nat] [Int 0; Int 1];
              dataset GAL_DATA_TYPE_LOGICAL [2%nat] [Int 1; Int 1]])
  = Exit (TypeNotRecognized "WHERE_OUT_SET" GAL_DATA_TYPE_LOGICAL)
      (heap_of [dataset GAL_DATA_TYPE_UCHAR [2%nat] [Int 5; Int 6];
                dataset GAL_DATA_TYPE_UCHAR [2%nat] [Int 0; Int 1];
                dataset GAL_DATA_TYPE_LOGICAL [2%nat] [Int 1; Int 1]]).
Proof.
  apply (where_rejects_types GAL_DATA_OPERATOR_POW GAL_DATA_ARITH_FREE
           1%positive 2%positive 3%positive _
           (dataset GAL_DATA_TYPE_UCHAR [2%nat] [Int 5; Int 6])
           (dataset GAL_DATA_TYPE_UCHAR [2%nat] [Int 0; Int 1])
           (dataset GAL_DATA_TYPE_LOGICAL [2%nat] [Int 1; Int 1]));
    [reflexivity | reflexivity | reflexivity | reflexivity | reflexivity
    | discriminate | reflexivity].
Defined.

(** A value of a one-byte type comes back unchanged from the common type of
    the conditional operator, whatever the type of the values. *)
Lemma one_byte_round_trip ITT OT v :
  sizeof OT = 1%nat → holds OT v = true →
  convert OT (convert (usual_arithmetic_conversion ITT OT) v) = v.
Proof.
  intros Hone Hv. destruct v as [|z|f]; try discriminate.
  set (lo := if c_is_signed OT then -128 else 0).
  assert (lo ≤ z < lo + 256) as Hz.
  { unfold lo. destruct OT; try discriminate Hone; unfold holds in Hv;
      vm_compute c_is_signed in Hv; cbv iota in Hv;
      apply andb_true_iff in Hv as [Hlo%Z.leb_le Hhi%Z.ltb_lt].
    all: change (2 ^ c_bits _) with 256 in *;
      change (2 ^ (c_bits _ - 1)) with 128 in *; simpl; lia. }
  assert (forallb
            (λ n, match convert OT (convert (usual_arithmetic_conversion ITT OT)
                                      (Int (lo + Z.of_nat n))) with
                  | Int z' => z' =? lo + Z.of_nat n
                  | _ => false
                  end) (seq 0 256) = true) as Hall.
  { unfold lo.
    destruct OT; try discriminate Hone; destruct ITT; vm_compute; reflexivity. }
  rewrite forallb_forall in Hall.
  specialize (Hall (Z.to_nat (z - lo))).
  rewrite Z2Nat.id in Hall by lia.
  replace (lo + (z - lo)) with z in Hall by lia.
  assert (In (Z.to_nat (z - lo)) (seq 0 256)) as Hin by (apply in_seq; lia).
  destruct (convert OT _) as [|z'|f']; try discriminate (Hall Hin).
  f_equal. by apply Z.eqb_eq, Hall.
Qed.

(** X17.  On a well-formed output of a one-byte type, under the conditions
    of [where], an element of the output whose condition is zero and whose
    value is one its type can hold is exactly what it was: the passage
    through the common type of the conditional operator loses nothing,
    whatever the type of the values. *)
Theorem where_zero_condition_keeps_one_byte_element
    operator flags out cond iftrue (h : heap) od cd id ITT OT :
  h !! out = Some od → h !! cond = Some cd → h !! iftrue = Some id →
  out ≠ cond → out ≠ iftrue → cond ≠ iftrue →
  wf_data od = true → wf_data cd = true → wf_data id = true →
  type cd = GAL_DATA_TYPE_UCHAR → shape od = shape cd →
  where_c_type (type od) = Some OT → where_c_type (type id) = Some ITT →
  size id = size od ∨ size id = 1%nat →
  sizeof OT = 1%nat →
  ∃ h' od',
    data_arithmetic_where operator flags out cond iftrue h = Done tt h'
    ∧ h' !! out = Some od'
    ∧ ∀ i x, array od !! i = Some x → holds OT x = true →
             is_zero (element cd i) = true →
             array od' !! i = Some x.
Proof.
  intros Ho Hc Hi Hnc Hni Hci Hwo Hwc Hwi Htc Hshape%same_shape_same_dsize
    Hot Hitt Hsz Hone.
  pose proof Hwo as (Hlo & _ & _ & Hpo)%wf_data_spec.
  rewrite (data_arithmetic_where_spec operator flags out cond iftrue h od cd id ITT OT)
    by done.
  rewrite Hone, turns_one by done.
  eexists _, _. split; [reflexivity|].
  split; [by rewrite where_cleanup_other, lookup_insert_eq|].
  intros i x Hx Hholds Hzero. simpl.
  pose proof (lookup_lt_Some _ _ _ Hx) as Hlt.
  rewrite <- Hlo, filled_all, list_lookup_fmap, lookup_seq_lt by done. simpl.
  unfold where_element. rewrite Hzero. unfold element at 1. rewrite Hx. simpl.
  f_equal. by apply one_byte_round_trip.
Qed.

Lemma where_zero_condition_keeps_one_byte_element_witness :
  ∃ h' od',
    data_arithmetic_where GAL_DATA_OPERATOR_POW 0%N 1%positive 2%positive 3%positive
      (heap_of [dataset GAL_DATA_TYPE_CHAR [2%nat] [Int (-5); Int 6];
                dataset GAL_DATA_TYPE_UCHAR [2%nat] [Int 0; Int 1];
                dataset GAL_DATA_TYPE_FLOAT [1%nat] [f32 9]])
    = Done tt h'
    ∧ h' !! 1%positive = Some od'
    ∧ array od' !! 0%nat = Some (Int (-5)).
Proof.
  destruct (where_zero_condition_keeps_one_byte_element GAL_DATA_OPERATOR_POW 0%N
              1%positive 2%positive 3%positive
              (heap_of [dataset GAL_DATA_TYPE_CHAR [2%nat] [Int (-5); Int 6];
                        dataset GAL_DATA_TYPE_UCHAR [2%nat] [Int 0; Int 1];
                        dataset GAL_DATA_TYPE_FLOAT [1%nat] [f32 9]])
              (dataset GAL_DATA_TYPE_CHAR [2%nat] [Int (-5); Int 6])
              (dataset GAL_DATA_TYPE_UCHAR [2%nat] [Int 0; Int 1])
              (dataset GAL_DATA_TYPE_FLOAT [1%nat] [f32 9])
              c_float c_char)
    as (h' & od' & Hrun & Hout & Hkept);
    [reflexivity | reflexivity | reflexivity | discriminate | discriminate
    | discriminate | reflexivity | reflexivity | reflexivity | reflexivity
    | reflexivity | reflexivity | reflexivity | by right | reflexivity |].
  exists h', od'. split; [exact Hrun|]. split; [exact Hout|].
  apply Hkept; reflexivity.
Defined.

(** A loop whose body goes wrong at turn [n], after [n] good turns. *)
Lemma do_while_faults (H : nat → heap) body again n :
  body n (H n) = Fault →
  ∀ fuel k,
    (k ≤ n)%nat → (n ≤ k + fuel)%nat →
    (∀ i, (k ≤ i < n)%nat → body i (H i) = Done tt (H (S i))) →
    (∀ i, (k < i ≤ n)%nat → again i = true) →
    do_while fuel body again k (H k) = Fault.
Proof.
  intros Hbad fuel. induction fuel as [|fuel IH]; intros k Hk Hfuel Hbody Hagain.
  - assert (k = n) as -> by lia. simpl. by rewrite Hbad.
  - simpl. destruct (decide (k = n)) as [->|Hne]; [by rewrite Hbad|].
    rewrite Hbody by lia. rewrite Hagain by lia.
    apply IH; [lia | lia | |].
    + intros i Hi. apply Hbody. lia.
    + intros i Hi. apply Hagain. lia.
Qed.

Lemma DO_WHERE_OPERATION_fault ITT OT out cond iftrue (h : heap) od cd id n :
  h !! out = Some od → h !! cond = Some cd → h !! iftrue = Some id →
  out ≠ cond → out ≠ iftrue →
  length (array od) = size od → (0 < size od)%nat →
  (size od ≤ length (array cd))%nat →
  size id ≠ 1%nat →
  (length (array id) ≤ n < turns (sizeof OT) (size od))%nat →
  (∀ i, (length (array id) ≤ i < n)%nat → is_zero (element cd i) = true) →
  is_zero (element cd n) = false →
  DO_WHERE_OPERATION ITT OT out cond iftrue h = Fault.
Proof.
  intros Ho Hc Hi Hnc Hni Hlen Hpos Hlenc Hone [Hshort Hn] Hzero Hnz.
  pose proof (sizeof_pos OT) as Hw.
  pose proof (turns_le (sizeof OT) (size od) Hw Hpos) as Hle.
  unfold DO_WHERE_OPERATION.
  rewrite (bind_Done _ _ _ _ _ (deref_live h out od Ho)).
  rewrite (bind_Done _ _ _ _ _ (deref_live h iftrue id Hi)).
  apply Nat.eqb_neq in Hone as Hone'. rewrite Hone'.
  set (G := where_element ITT OT od cd id).
  set (H := λ k, <[out := with_array od (filled (array od) G k)]> h).
  assert (h = H 0%nat) as Hh0.
  { unfold H. by rewrite filled_0, with_array_id, insert_id. }
  rewrite Hh0 at 1.
  apply (do_while_faults H _ _ n).
  - unfold H.
    rewrite (bind_Done _ _ _ _ _
               (load_while_filling h out od G n cond cd n (element cd n)
                  Ho Hc ltac:(apply element_lookup; lia) ltac:(lia)
                  ltac:(intros E; by rewrite E in Hnc))).
    rewrite Hnz. unfold bind at 1.
    rewrite load_insert_ne, Hi by done.
    by rewrite (lookup_ge_None_2 (array id) n).
  - lia.
  - lia.
  - intros i [_ Hlt]. unfold H.
    rewrite (bind_Done _ _ _ _ _
               (load_while_filling h out od G i cond cd i (element cd i)
                  Ho Hc ltac:(apply element_lookup; lia) ltac:(lia)
                  ltac:(intros E; by rewrite E in Hnc))).
    assert (G i = convert OT (convert (usual_arithmetic_conversion ITT OT)
              (if is_zero (element cd i) then element od i
               else element id i))) as HG
      by (unfold G, where_element; by rewrite Hone').
    destruct (is_zero (element cd i)) eqn:Hz.
    + rewrite (bind_Done _ _ _ _ _
                 (load_while_filling h out od G i out od i (element od i)
                    Ho Ho ltac:(apply element_lookup; lia) ltac:(lia)
                    ltac:(done))).
      rewrite <- HG. apply (store_filled h out od G i). lia.
    + assert (i < length (array id))%nat as Hin.
      { destruct (Nat.lt_ge_cases i (length (array id))) as [|Hge]; [done|].
        rewrite Hzero in Hz by lia. discriminate Hz. }
      rewrite (bind_Done _ _ _ _ _
                 (load_while_filling h out od G i iftrue id i (element id i)
                    Ho Hi ltac:(by apply element_lookup) ltac:(lia)
                    ltac:(intros E; by rewrite E in Hni))).
      rewrite <- HG. apply (store_filled h out od G i). lia.
  - intros i Hlt. apply turns_again; [done|lia].
Qed.

(** X18.  [where] never compares the size of the values with the size of
    the output.  With values that are more than one and fewer than the
    turns of the loop, the loop reads the values with the index of the
    output: at the first element past the end of the values whose condition
    is not zero, it reads outside their buffer. *)
Theorem where_reads_past_short_values operator flags out cond iftrue (h : heap)
    od cd id ITT OT n :
  h !! out = Some od → h !! cond = Some cd → h !! iftrue = Some id →
  out ≠ cond → out ≠ iftrue →
  wf_data od = true → wf_data cd = true → wf_data id = true →
  type cd = GAL_DATA_TYPE_UCHAR → shape od = shape cd →
  where_c_type (type od) = Some OT → where_c_type (type id) = Some ITT →
  size id ≠ 1%nat →
  (size id ≤ n < turns (sizeof OT) (size od))%nat →
  (∀ i, (size id ≤ i < n)%nat → is_zero (element cd i) = true) →
  is_zero (element cd n) = false →
  data_arithmetic_where operator flags out cond iftrue h = Fault.
Proof.
  intros Ho Hc Hi Hnc Hni Hwo Hwc Hwi Htc Hshape%same_shape_same_dsize
    Hot Hitt Hone Hn Hzero Hnz.
  pose proof (same_dsize_same_size od cd Hwo Hwc Hshape) as Hsize.
  pose proof Hwo as (Hlo & _ & _ & Hpo)%wf_data_spec.
  pose proof Hwc as (Hlc & _ & _ & _)%wf_data_spec.
  pose proof Hwi as (Hli & _ & _ & _)%wf_data_spec.
  assert (WHERE_OUT_SET OT out cond iftrue h = Fault) as Hset.
  { unfold WHERE_OUT_SET.
    rewrite (bind_Done _ _ _ _ _ (deref_live h iftrue id Hi)).
    destruct (type id); try discriminate; injection Hitt as <-;
      apply (DO_WHERE_OPERATION_fault _ OT out cond iftrue h od cd id n);
      try done; rewrite ?Hli; try done; lia. }
  unfold data_arithmetic_where.
  rewrite (bind_Done _ _ _ _ _ (deref_live h cond cd Hc)).
  rewrite bool_decide_eq_true_2 by done. simpl.
  unfold bind at 1, ret at 1.
  rewrite (bind_Done _ _ _ _ _ (deref_live h out od Ho)).
  rewrite Hshape. unfold bind at 1, ret at 1.
  assert (∀ (c : exec unit) (k : unit → exec unit),
            c h = Fault → bind c k h = Fault) as Hbind
    by (intros c k Hck; unfold bind; by rewrite Hck).
  destruct (type od); try discriminate; injection Hot as <-; apply Hbind, Hset.
Qed.

Lemma where_reads_past_short_values_witness :
  data_arithmetic_where GAL_DATA_OPERATOR_POW 0%N 1%positive 2%positive 3%positive
    (heap_of [dataset GAL_DATA_TYPE_UCHAR [3%nat] [Int 1; Int 1; Int 1];
              dataset GAL_DATA_TYPE_UCHAR [3%nat] [Int 0; Int 0; Int 1];
              dataset GAL_DATA_TYPE_UCHAR [2%nat] [Int 9; Int 9]])
  = Fault.
Proof.
  apply (where_reads_past_short_values GAL_DATA_OPERATOR_POW 0%N
           1%positive 2%positive 3%positive _
           (dataset GAL_DATA_TYPE_UCHAR [3%nat] [Int 1; Int 1; Int 1])
           (dataset GAL_DATA_TYPE_UCHAR [3%nat] [Int 0; Int 0; Int 1])
           (dataset GAL_DATA_TYPE_UCHAR [2%nat] [Int 9; Int 9])
           c_unsigned_char c_unsigned_char 2%nat);
    [reflexivity | reflexivity | reflexivity | discriminate | discriminate
    | reflexivity | reflexivity | reflexivity | reflexivity | reflexivity
    | reflexivity | reflexivity | discriminate | vm_compute; lia
    | intros i Hi; vm_compute in Hi; lia | reflexivity].
Defined.

(** ** Change of type, again *)

(** X19.  An operator that names no type (one of [sqrt], [log], [log10] and
    [pow]) makes [data_arithmetic_change_type] exit with the error for an
    unrecognized operator before it reads its input: the heap is as it was,
    nothing is copied and nothing is freed, whatever the flags and whether
    or not the input is live. *)
Theorem change_type_rejects_operator data operator flags (h : heap) :
  requested_type operator = None →
  data_arithmetic_change_type data operator flags h
  = Exit (OperatorNotRecognized "data_arithmetic_change_type" operator) h.
Proof. intros Hreq. by destruct operator. Qed.

Lemma change_type_rejects_operator_witness :
  data_arithmetic_change_type 1%positive GAL_DATA_OPERATOR_SQRT GAL_DATA_ARITH_FREE
    (heap_of [squares_2])
  = Exit (OperatorNotRecognized "data_arithmetic_change_type" GAL_DATA_OPERATOR_SQRT)
      (heap_of [squares_2]).
Proof.
  apply (change_type_rejects_operator 1%positive GAL_DATA_OPERATOR_SQRT
           GAL_DATA_ARITH_FREE (heap_of [squares_2])).
  reflexivity.
Defined.
